(** * slate-react/src/components/node.js

    A shallow embedding of the [Node] component of slate-react: the range
    projector [getRelativeRange], the update gate [shouldComponentUpdate]
    and [render], followed by the properties the specification states about
    them. *)

From stdpp Require Import base option list strings gmap fin_maps.

Set Default Proof Using "Type".

(** ** JavaScript values and exceptions *)

Module Js.

(** A computation either returns or throws.  The only exception the
    component can raise by itself is a [TypeError] (a property read on
    [undefined], or destructuring [undefined]). *)
Inductive result (A : Type) : Type :=
| Ok (a : A)
| TypeError.
Arguments Ok {A} a.
Arguments TypeError {A}.

Definition bind {A B} (m : result A) (k : A -> result B) : result B :=
  match m with
  | Ok a => k a
  | TypeError => TypeError
  end.

(** The values a plugin hook may hand back. *)
Inductive value : Type :=
| undefined
| null
| boolean (b : bool)
| number (z : Z)
| str (s : string).

(** [ToBoolean]. *)
Definition truthy (v : value) : bool :=
  match v with
  | undefined | null => false
  | boolean b => b
  | number z => negb (z =? 0)%Z
  | str s => match s with EmptyString => false | String _ _ => true end
  end.

(** [v != null]: neither [null] nor [undefined]. *)
Definition not_nullish (v : value) : bool :=
  match v with
  | undefined | null => false
  | _ => true
  end.

(** [v !== false]. *)
Definition strict_ne_false (v : value) : bool :=
  match v with
  | boolean false => false
  | _ => true
  end.

(** Relational operators whose left or right operand may be [undefined]
    (the result of [List.first()] on an empty list): [undefined] converts
    to [NaN] and every comparison with it is false. *)
Definition strict_eq (a : option nat) (i : nat) : bool :=
  match a with Some x => x =? i | None => false end.
Definition lt_l (a : option nat) (i : nat) : bool :=
  match a with Some x => x <? i | None => false end.
Definition le_l (a : option nat) (i : nat) : bool :=
  match a with Some x => x <=? i | None => false end.
Definition lt_r (i : nat) (b : option nat) : bool :=
  match b with Some y => i <? y | None => false end.
Definition le_r (i : nat) (b : option nat) : bool :=
  match b with Some y => i <=? y | None => false end.

(** [xs.filter(x => x)] on a list whose elements are objects or [null]. *)
Definition filter_truthy {A} (xs : list (option A)) : list A :=
  omap id xs.

(** [xs.map(f)] where the callback may throw. *)
Fixpoint mapM {A B} (f : A -> result B) (xs : list A) : result (list B) :=
  match xs with
  | [] => Ok []
  | x :: xs' =>
      match f x with
      | Ok y => match mapM f xs' with Ok ys => Ok (y :: ys) | TypeError => TypeError end
      | TypeError => TypeError
      end
  end.

(** [xs.map((x, i) => f(i, x))], counting from [i]. *)
Fixpoint imapM {A B} (f : nat -> A -> result B) (i : nat) (xs : list A)
  : result (list B) :=
  match xs with
  | [] => Ok []
  | x :: xs' =>
      match f i x with
      | Ok y => match imapM f (S i) xs' with Ok ys => Ok (y :: ys) | TypeError => TypeError end
      | TypeError => TypeError
      end
  end.

(** [m.map(f)] on an Immutable [Map] with string keys. *)
Definition map_mapM {A B} (f : A -> result B) (m : gmap string A)
  : result (gmap string B) :=
  map_fold (fun k a acc =>
              match acc with
              | Ok m' => match f a with Ok b => Ok (<[k:=b]> m') | TypeError => TypeError end
              | TypeError => TypeError
              end) (Ok ∅) m.

(** [m.filter(x => x)] on such a map. *)
Definition map_filter_truthy {A} (m : gmap string (option A)) : gmap string A :=
  omap id m.

End Js.

Notation "'let*' x ':=' m 'in' k" := (Js.bind m (fun x => k))
  (at level 10, x name, m at level 100, k at level 200).

(** ** The document model (package [slate]) *)

(** Paths are Immutable [List]s of child indices. *)
Module PathUtils.
Definition create (a : list nat) : list nat := a.
Definition first (p : list nat) : option nat := head p.
Definition rest (p : list nat) : list nat := tail p.
End PathUtils.

(** Modelled from the spec: the [Point] record of package [slate] is not in
    the sources at hand; a point is a path and an offset, [setPath] replaces
    the path and [moveTo] replaces both. *)
Record Point : Type := mkPoint { path : list nat; offset : nat }.

Definition setPath (p : Point) (np : list nat) : Point :=
  {| path := np; offset := offset p |}.

Definition moveTo (p : Point) (np : list nat) (o : nat) : Point :=
  {| path := np; offset := o |}.

(** Modelled from the spec: the kind-specific metadata of the three range
    kinds of package [slate]. *)
Inductive RangeMeta : Type :=
| SelectionMeta (isBackward isFocused : bool) (marks : list string)
| DecorationMeta (type : string) (data : list (string * string))
| AnnotationMeta (key : string) (type : string) (data : list (string * string)).

(** Modelled from the spec: the range interface of package [slate];
    [setStart] and [setEnd] replace one endpoint and keep everything else. *)
Record Range : Type := mkRange { start : Point; end_ : Point; meta : RangeMeta }.

Definition setStart (r : Range) (p : Point) : Range :=
  {| start := p; end_ := end_ r; meta := meta r |}.

Definition setEnd (r : Range) (p : Point) : Range :=
  {| start := start r; end_ := p; meta := meta r |}.

(** [selection.isFocused]: only a selection carries the flag. *)
Definition range_isFocused (r : Range) : Js.value :=
  match meta r with
  | SelectionMeta _ f _ => Js.boolean f
  | _ => Js.undefined
  end.

Global Instance Point_eq_dec : EqDecision Point.
Proof. solve_decision. Defined.
Global Instance RangeMeta_eq_dec : EqDecision RangeMeta.
Proof. solve_decision. Defined.
Global Instance Range_eq_dec : EqDecision Range.
Proof. solve_decision. Defined.

(** Document order on points, as the data model words it: path first
    (lexicographic, a prefix before its extensions), then offset. *)
Fixpoint path_compare (p q : list nat) : comparison :=
  match p, q with
  | [], [] => Eq
  | [], _ :: _ => Lt
  | _ :: _, [] => Gt
  | x :: p', y :: q' =>
      match Nat.compare x y with
      | Eq => path_compare p' q'
      | c => c
      end
  end.

Definition point_le (a b : Point) : bool :=
  match path_compare (path a) (path b) with
  | Lt => true
  | Eq => offset a <=? offset b
  | Gt => false
  end.

(** The [object] tag of a node. *)
Inductive NodeObject : Type := document | block | inline | text.

Global Instance NodeObject_eq_dec : EqDecision NodeObject.
Proof. solve_decision. Defined.

(** Nodes are immutable records held by reference: [addr] is the identity of
    the object, which is all that [!==] looks at; two nodes with the same
    fields and different [addr] are the copy-paste case of the source.
    A [Text] has a [text] and no [nodes]; the other three have [nodes]. *)
Local Unset Elimination Schemes.
Inductive Node : Type :=
| Text (addr : positive) (key : string) (text : string)
| Document (addr : positive) (key : string) (nodes : list Node)
| Block (addr : positive) (key : string) (nodes : list Node)
| Inline (addr : positive) (key : string) (nodes : list Node).
Local Set Elimination Schemes.

Definition addr_of (n : Node) : positive :=
  match n with
  | Text a _ _ | Document a _ _ | Block a _ _ | Inline a _ _ => a
  end.

Definition key_of (n : Node) : string :=
  match n with
  | Text _ k _ | Document _ k _ | Block _ k _ | Inline _ k _ => k
  end.

(** [n.object]. *)
Definition object_of (n : Node) : NodeObject :=
  match n with
  | Text _ _ _ => text
  | Document _ _ _ => document
  | Block _ _ _ => block
  | Inline _ _ _ => inline
  end.

(** [node.nodes] followed by a method call: a text node has no such field. *)
Definition nodes_of (n : Node) : Js.result (list Node) :=
  match n with
  | Text _ _ _ => Js.TypeError
  | Document _ _ ns | Block _ _ ns | Inline _ _ ns => Js.Ok ns
  end.

(** [n.text.length] (code units of the string); only a text node has a
    [text]. *)
Definition text_length (n : Node) : Js.result nat :=
  match n with
  | Text _ _ t => Js.Ok (String.length t)
  | _ => Js.TypeError
  end.

(** [a !== b] on node references. *)
Definition node_differs (a b : Node) : bool :=
  negb (Pos.eqb (addr_of a) (addr_of b)).

Inductive Direction : Type := forward | backward.

(** The text leaves below the children of a node, child by child. *)
Section ChildrenTexts.

(** The traversal of one subtree, closed into [texts] below. *)
Variable descend : Node -> list (Node * list nat).

(** What the child [c] at index [j] contributes: itself when it is a text,
    else its own text leaves with [j] put in front of their paths. *)
Definition child_texts (j : nat) (c : Node) : list (Node * list nat) :=
  match c with
  | Text _ _ _ => [(c, [j])]
  | _ => map (fun tp => (fst tp, j :: snd tp)) (descend c)
  end.

Fixpoint children_texts (j : nat) (l : list Node) : list (list (Node * list nat)) :=
  match l with
  | [] => []
  | c :: l' => child_texts j c :: children_texts (S j) l'
  end.

End ChildrenTexts.

(** Modelled from the spec: [node.texts(options)] of package [slate] is not
    in the sources at hand.  It walks the descendants depth first, in
    document order or backwards, and yields every text leaf with its path
    relative to [node]. *)
Fixpoint texts (d : Direction) (n : Node) : list (Node * list nat) :=
  match n with
  | Text _ _ _ => []
  | Document _ _ ns | Block _ _ ns | Inline _ _ ns =>
      let per_child := children_texts (texts d) 0 ns in
      concat (match d with
              | forward => per_child
              | backward => rev per_child
              end)
  end.

(** ** The range projector *)

(** Lines 227-239: the start of [range] relative to the child at [index].
    [child] is [node.nodes.get(index)], [undefined] when out of range. *)
Definition relativeStart (child : option Node) (index : nat) (range : Range)
  : Js.result (option Point) :=
  let startPath := path (start range) in
  let endPath := path (end_ range) in
  let startIndex := PathUtils.first startPath in
  let endIndex := PathUtils.first endPath in
  if Js.strict_eq startIndex index then
    Js.Ok (Some (setPath (start range) (PathUtils.rest startPath)))
  else if Js.lt_l startIndex index && Js.le_r index endIndex then
    match child with
    | None => Js.TypeError
    | Some c =>
        match object_of c with
        | text =>
            Js.Ok (Some (moveTo (start range) (PathUtils.create [index]) 0))
        | _ =>
            match texts forward c with
            | [] => Js.TypeError
            | (_, firstPath) :: _ =>
                Js.Ok (Some (moveTo (start range) firstPath 0))
            end
        end
    end
  else Js.Ok None.

(** Lines 241-253: the end of [range] relative to the child at [index]. *)
Definition relativeEnd (child : option Node) (index : nat) (range : Range)
  : Js.result (option Point) :=
  let startPath := path (start range) in
  let endPath := path (end_ range) in
  let startIndex := PathUtils.first startPath in
  let endIndex := PathUtils.first endPath in
  if Js.strict_eq endIndex index then
    Js.Ok (Some (setPath (end_ range) (PathUtils.rest endPath)))
  else if Js.le_l startIndex index && Js.lt_r index endIndex then
    match child with
    | None => Js.TypeError
    | Some c =>
        match object_of c with
        | text =>
            let* len := text_length c in
            Js.Ok (Some (moveTo (end_ range) (PathUtils.create [index]) len))
        | _ =>
            match texts backward c with
            | [] => Js.TypeError
            | (lastNode, lastPath) :: _ =>
                let* len := text_length lastNode in
                Js.Ok (Some (moveTo (end_ range) lastPath len))
            end
        end
    end
  else Js.Ok None.

(** [getRelativeRange(node, index, range)]. *)
Definition getRelativeRange (node : Node) (index : nat) (range : Range)
  : Js.result (option Range) :=
  let* ns := nodes_of node in
  let child := ns !! index in
  let* start' := relativeStart child index range in
  let* end' := relativeEnd child index range in
  match start', end' with
  | Some s, Some e => Js.Ok (Some (setEnd (setStart range s) e))
  | _, _ => Js.Ok None
  end.


(** The null-dropping projection onto child [i]: what [getRelativeRange]
    returns when it returns a range. *)
Definition project (node : Node) (i : nat) (r : Range) : option Range :=
  match getRelativeRange node i r with
  | Js.Ok (Some r') => Some r'
  | _ => None
  end.

(** ** The component *)

(** [this.props] of a [Node] component.  [isSelected] and [isFocused] are
    read by [shouldComponentUpdate] although [propTypes] does not list
    them; only their truth value is looked at. *)
Module Props.
Record t : Type := mk {
  annotations : gmap string Range;
  block : option Node;
  decorations : list Range;
  node : Node;
  parent : option Node;
  readOnly : bool;
  selection : option Range;
  isSelected : bool;
  isFocused : bool;
}.
End Props.

Inductive Component : Type := TextComponent | NodeComponent.

(** The element [<Component ... />] built for one child. *)
Module Child.
Record t : Type := mk {
  component : Component;
  block : option Node;
  annotations : gmap string Range;
  decorations : list Range;
  selection : option Range;
  key : string;
  node : Node;
  parent : Node;
  readOnly : bool;
}.
End Child.

Inductive Hook : Type := renderBlock | renderDocument | renderInline.

Inductive TextDirection : Type := rtl | ltr | neutral.

Record Attributes : Type := mkAttributes { data_key : string; dir : option TextDirection }.

(** The argument of [editor.run(render, ...)]; the [editor] entry, which is
    the handle itself, is left out. *)
Module HookArgs.
Record t : Type := mk {
  key : string;
  isFocused : Js.value;
  isSelected : option Range;
  node : Node;
  parent : option Node;
  readOnly : bool;
  attributes : Attributes;
  children : list Child.t;
}.
End HookArgs.

(** The text of the warning of line 86. *)
Definition veto_warning : string :=
  "Returning false in `shouldNodeComponentUpdate` does not disable Slate's internal `shouldComponentUpdate` logic. If you want to prevent updates, use React's `shouldComponentUpdate` instead.".

(** Modelled from the spec: [node.isLeafBlock()] of package [slate]: a block
    none of whose children is a block. *)
Definition isLeafBlock (n : Node) : bool :=
  match n with
  | Block _ _ ns =>
      forallb (fun c => negb (bool_decide (object_of c = block))) ns
  | _ => false
  end.

Section Component.

(** What the plugin pipeline returns for a render hook. *)
Variable Element : Type.

(** The editor handle: [editor.run('shouldNodeComponentUpdate', p, n)],
    [editor.run(render, args)] with [render] possibly [undefined], and
    [editor.isVoid(node)]. *)
Record Editor : Type := mkEditor {
  run_shouldNodeComponentUpdate : Props.t -> Props.t -> Js.value;
  run_render : option Hook -> HookArgs.t -> Element;
  isVoid : Node -> bool;
}.

Variable editor : Editor.

(** [<Void {...props}>{element}</Void>]. *)
Variable Void : Props.t -> Element -> Element.

(** [node.getDecorations(editor)] and [node.getTextDirection()]. *)
Variable getDecorations : Node -> list Range.
Variable getTextDirection : Node -> TextDirection.

(** The built-in checks of lines 90-115. *)
Definition builtinChecks (p n : Props.t) : bool :=
  if negb (Bool.eqb (Props.readOnly n) (Props.readOnly p)) then true
  else if node_differs (Props.node n) (Props.node p) then true
  else if Props.isSelected n || Props.isSelected p then true
  else if Props.isFocused n || Props.isFocused p then true
  else if negb (bool_decide (Props.annotations n = Props.annotations p)) then true
  else if negb (bool_decide (Props.decorations n = Props.decorations p)) then true
  else false.

(** [shouldComponentUpdate(nextProps)] on a component whose [this.props]
    is [props]: the decision and the warnings printed on the way. *)
Definition shouldComponentUpdate (props nextProps : Props.t) : bool * list string :=
  let shouldUpdate := run_shouldNodeComponentUpdate editor props nextProps in
  let n := nextProps in
  let p := props in
  if Js.not_nullish shouldUpdate then
    if Js.truthy shouldUpdate then (true, [])
    else
      (builtinChecks p n,
       if Js.strict_ne_false shouldUpdate then [] else [veto_warning])
  else (builtinChecks p n, []).

(** The props of the child at index [i] (the callback of line 138). *)
Definition childElement (props : Props.t) (newDecorations : list Range)
    (i : nat) (child : Node) : Js.result Child.t :=
  let node := Props.node props in
  let Component :=
    match object_of child with text => TextComponent | _ => NodeComponent end in
  let* sel :=
    match Props.selection props with
    | None => Js.Ok None
    | Some selection => getRelativeRange node i selection
    end in
  let* projected := Js.mapM (fun d => getRelativeRange node i d) newDecorations in
  let decs := Js.filter_truthy projected ++ Props.decorations props in
  let* projected' :=
    Js.map_mapM (fun a => getRelativeRange node i a) (Props.annotations props) in
  let anns := Js.map_filter_truthy projected' in
  Js.Ok {| Child.component := Component;
           Child.block :=
             match object_of node with
             | block => Some node
             | _ => Props.block props
             end;
           Child.annotations := anns;
           Child.decorations := decs;
           Child.selection := sel;
           Child.key := key_of child;
           Child.node := child;
           Child.parent := node;
           Child.readOnly := Props.readOnly props |}.

(** [const children = node.nodes.toArray().map(...)]. *)
Definition renderChildren (props : Props.t) : Js.result (list Child.t) :=
  let node := Props.node props in
  let newDecorations := getDecorations node in
  let* ns := nodes_of node in
  Js.imapM (childElement props newDecorations) 0 ns.

(** The render hook of lines 187-195; [undefined] when no branch fits. *)
Definition renderHook (node : Node) : option Hook :=
  match object_of node with
  | block => Some renderBlock
  | document => Some renderDocument
  | inline => Some renderInline
  | text => None
  end.

(** The attribute bag of lines 168-175. *)
Definition renderAttributes (node : Node) : Attributes :=
  {| data_key := key_of node;
     dir := if isLeafBlock node then
              match getTextDirection node with
              | rtl => Some rtl
              | _ => None
              end
            else None |}.

(** The argument handed to the render hook (lines 177-201).  An absent
    selection is [null] here, and [selection && selection.isFocused] is
    then the absent selection itself. *)
Definition hookArgs (props : Props.t) (children : list Child.t) : HookArgs.t :=
  let node := Props.node props in
  let selection := Props.selection props in
  {| HookArgs.key := key_of node;
     HookArgs.isFocused :=
       match selection with
       | None => Js.null
       | Some s => range_isFocused s
       end;
     HookArgs.isSelected := selection;
     HookArgs.node := node;
     HookArgs.parent := Props.parent props;
     HookArgs.readOnly := Props.readOnly props;
     HookArgs.attributes := renderAttributes node;
     HookArgs.children := children |}.

(** [render()]; the debug trace of line 125 is left out. *)
Definition render (props : Props.t) : Js.result Element :=
  let node := Props.node props in
  let* children := renderChildren props in
  let render := renderHook node in
  let element := run_render editor render (hookArgs props children) in
  Js.Ok (if isVoid editor node then Void props element else element).

End Component.

Arguments mkEditor {Element}.
Arguments run_shouldNodeComponentUpdate {Element}.
Arguments run_render {Element}.
Arguments isVoid {Element}.
Arguments builtinChecks p n : assert.
Arguments shouldComponentUpdate {Element}.
Arguments childElement props newDecorations i child : assert.
Arguments renderChildren getDecorations props : assert.
Arguments hookArgs getTextDirection props children : assert.
Arguments render {Element}.

(** ** Sample documents and ranges *)

Module Fixture.

Definition hello : Node := Text 2 "t0" "Hello".
Definition world : Node := Text 3 "t1" "World".

(** A block with the two text children "Hello" and "World". *)
Definition paragraph : Node := Block 1 "p" [hello; world].

Definition deco (s e : Point) : Range :=
  mkRange s e (DecorationMeta "highlight" []).

(** From offset 2 of child 0 to offset 3 of child 1. *)
Definition boundary : Range := deco (mkPoint [0] 2) (mkPoint [1] 3).

(** A range whose end names a sixth child that [paragraph] does not have. *)
Definition overlong : Range := deco (mkPoint [0] 1) (mkPoint [5] 0).

(** A range whose start names a child that [paragraph] does not have. *)
Definition beyond : Range := deco (mkPoint [7] 0) (mkPoint [8] 0).

(** A range that addresses the node itself at its start. *)
Definition rootStart : Range := deco (mkPoint [] 0) (mkPoint [1] 3).

(** A document whose middle block holds no text leaf. *)
Definition hollow : Node :=
  Document 10 "d"
    [Block 11 "a" [Text 12 "ta" "a"];
     Block 13 "b" [];
     Block 14 "c" [Text 15 "tc" "c"]].

(** From the first block of [hollow] to its last. *)
Definition across : Range := deco (mkPoint [0; 0] 0) (mkPoint [2; 0] 1).

(** A document of three blocks, each with text. *)
Definition article : Node :=
  Document 20 "d"
    [Block 21 "a" [Text 22 "ta" "one"];
     Block 23 "b" [Inline 24 "i" [Text 25 "tb" "two"]];
     Block 26 "c" [Text 27 "tc" "three"]].

(** Props of [paragraph]: nothing selected, no overlays. *)
Definition idle : Props.t :=
  {| Props.annotations := ∅; Props.block := None; Props.decorations := [];
     Props.node := paragraph; Props.parent := None; Props.readOnly := false;
     Props.selection := None; Props.isSelected := false;
     Props.isFocused := false |}.

(** The same props with the node selected, and with the node focused. *)
Definition selected : Props.t :=
  {| Props.annotations := ∅; Props.block := None; Props.decorations := [];
     Props.node := paragraph; Props.parent := None; Props.readOnly := false;
     Props.selection := None; Props.isSelected := true;
     Props.isFocused := false |}.

Definition focused : Props.t :=
  {| Props.annotations := ∅; Props.block := None; Props.decorations := [];
     Props.node := paragraph; Props.parent := None; Props.readOnly := false;
     Props.selection := None; Props.isSelected := false;
     Props.isFocused := true |}.

(** The same props on a copy of the node: equal fields, another object. *)
Definition pasted : Props.t :=
  {| Props.annotations := ∅; Props.block := None; Props.decorations := [];
     Props.node := Block 99 "p" [hello; world]; Props.parent := None;
     Props.readOnly := false; Props.selection := None;
     Props.isSelected := false; Props.isFocused := false |}.

(** Props of [paragraph] with an inherited decoration, an annotation that
    lies in child 0 and one that lies in child 1. *)
Definition annotated : Props.t :=
  {| Props.annotations :=
       <["c1" := mkRange (mkPoint [0] 1) (mkPoint [0] 4) (AnnotationMeta "c1" "comment" [])]>
         (<["c2" := mkRange (mkPoint [1] 0) (mkPoint [1] 2) (AnnotationMeta "c2" "comment" [])]> ∅);
     Props.block := None;
     Props.decorations := [deco (mkPoint [] 0) (mkPoint [] 1)];
     Props.node := paragraph; Props.parent := None; Props.readOnly := true;
     Props.selection := Some (mkRange (mkPoint [1] 1) (mkPoint [1] 1)
                                      (SelectionMeta false true []));
     Props.isSelected := true; Props.isFocused := true |}.

(** Render output kept symbolic: what a hook was run with, and the void
    wrapper around it. *)
Inductive Markup : Type :=
| Rendered (hook : option Hook) (args : HookArgs.t)
| VoidWrapper (props : Props.t) (inner : Markup).

(** Editors whose override hook has no opinion, says no, and says yes. *)
Definition silent : Editor Markup :=
  mkEditor (fun _ _ => Js.undefined) Rendered (fun _ => false).
Definition vetoing : Editor Markup :=
  mkEditor (fun _ _ => Js.boolean false) Rendered (fun _ => false).
Definition eager : Editor Markup :=
  mkEditor (fun _ _ => Js.boolean true) Rendered (fun _ => false).

(** An editor for which every node is void. *)
Definition voiding : Editor Markup :=
  mkEditor (fun _ _ => Js.undefined) Rendered (fun _ => true).

(** A decoration hook that highlights [boundary] on [paragraph]. *)
Definition decorate (n : Node) : list Range :=
  if Pos.eqb (addr_of n) 1 then [boundary; deco (mkPoint [1] 1) (mkPoint [1] 2)]
  else [].

Definition direction (n : Node) : TextDirection := ltr.

End Fixture.

(** * Properties *)

(** ** The document model *)

(** Induction on nodes, with the hypothesis available for every child. *)
Lemma Node_nested_ind (P : Node -> Prop) :
  (forall a k t, P (Text a k t)) ->
  (forall n ns, nodes_of n = Js.Ok ns -> Forall P ns -> P n) ->
  forall n, P n.
Proof.
  intros Htext Helem. fix IH 1.
  intros [a k t | a k ns | a k ns | a k ns].
  - apply Htext.
  - apply (Helem (Document a k ns) ns eq_refl).
    induction ns as [| c ns IHns]; constructor; [apply IH | apply IHns].
  - apply (Helem (Block a k ns) ns eq_refl).
    induction ns as [| c ns IHns]; constructor; [apply IH | apply IHns].
  - apply (Helem (Inline a k ns) ns eq_refl).
    induction ns as [| c ns IHns]; constructor; [apply IH | apply IHns].
Qed.

Lemma texts_unfold d n ns :
  nodes_of n = Js.Ok ns ->
  texts d n =
    concat (match d with
            | forward => children_texts (texts d) 0 ns
            | backward => rev (children_texts (texts d) 0 ns)
            end).
Proof. destruct n; simpl; intros H; inversion H; subst; reflexivity. Qed.

Lemma child_texts_rev j c :
  texts backward c = rev (texts forward c) ->
  child_texts (texts backward) j c = rev (child_texts (texts forward) j c).
Proof.
  intros H. unfold child_texts. destruct c; cbv beta iota;
    [reflexivity | rewrite H, map_rev; reflexivity ..].
Qed.

Lemma children_texts_rev ns :
  Forall (fun c => texts backward c = rev (texts forward c)) ns ->
  forall j, children_texts (texts backward) j ns
            = map (@rev _) (children_texts (texts forward) j ns).
Proof.
  induction 1 as [| c ns Hc _ IH]; intros j; simpl; [reflexivity |].
  rewrite IH, (child_texts_rev j c Hc). reflexivity.
Qed.

Lemma concat_rev_map_rev {A} (ls : list (list A)) :
  concat (rev (map (@rev A) ls)) = rev (concat ls).
Proof.
  induction ls as [| l ls IH]; simpl; [reflexivity |].
  rewrite concat_app, IH, rev_app_distr. simpl. rewrite app_nil_r. reflexivity.
Qed.

(** The backward traversal yields the text leaves of the forward one in
    reverse order. *)
Lemma texts_backward_rev n : texts backward n = rev (texts forward n).
Proof.
  induction n as [a k t | n ns Hns IH] using Node_nested_ind; [reflexivity |].
  rewrite (texts_unfold backward n ns Hns), (texts_unfold forward n ns Hns).
  rewrite (children_texts_rev ns IH 0). apply concat_rev_map_rev.
Qed.

Lemma texts_backward_nil n : texts backward n = [] <-> texts forward n = [].
Proof.
  rewrite texts_backward_rev. split; intros H.
  - apply (f_equal (@rev _)) in H. rewrite rev_involutive in H. exact H.
  - rewrite H. reflexivity.
Qed.

(** Every entry a traversal yields is a text node. *)
Lemma texts_yield_text d n :
  Forall (fun tp => object_of (fst tp) = text) (texts d n).
Proof.
  induction n as [a k t | n ns Hns IH] using Node_nested_ind; [constructor |].
  rewrite (texts_unfold d n ns Hns).
  assert (Hall : forall j,
             Forall (Forall (fun tp => object_of (fst tp) = text))
                    (children_texts (texts d) j ns)).
  { clear Hns. induction IH as [| c ns Hc _ IHns]; intros j; simpl; constructor.
    - unfold child_texts. destruct c; cbv beta iota;
        [repeat constructor | apply Forall_map; exact Hc ..].
    - apply IHns. }
  apply Forall_concat. destruct d; [apply Hall | apply Forall_rev, Hall].
Qed.

Lemma text_length_text n :
  object_of n = text -> exists len, text_length n = Js.Ok len.
Proof. destruct n; simpl; intros H; try discriminate. eexists; reflexivity. Qed.

(** ** The range projector *)

(** Case analysis on every comparison of indices in sight. *)
Ltac index_cases :=
  repeat match goal with
    | |- context [Nat.eqb ?a ?b] => destruct (Nat.eqb_spec a b)
    | |- context [Nat.ltb ?a ?b] => destruct (Nat.ltb_spec a b)
    | |- context [Nat.leb ?a ?b] => destruct (Nat.leb_spec a b)
    | H : context [Nat.eqb ?a ?b] |- _ => destruct (Nat.eqb_spec a b)
    | H : context [Nat.ltb ?a ?b] |- _ => destruct (Nat.ltb_spec a b)
    | H : context [Nat.leb ?a ?b] |- _ => destruct (Nat.leb_spec a b)
    end;
  simpl in *.

Lemma point_le_first a b s e :
  point_le a b = true ->
  PathUtils.first (path a) = Some s ->
  PathUtils.first (path b) = Some e ->
  s <= e.
Proof.
  unfold point_le, PathUtils.first.
  destruct (path a) as [| x p], (path b) as [| y q]; simpl; try discriminate.
  intros H [= ->] [= ->].
  destruct (Nat.compare_spec s e); [lia | lia | discriminate].
Qed.

(** The start is rebased when it lies in the child. *)
Lemma relativeStart_rebase child index range :
  PathUtils.first (path (start range)) = Some index ->
  relativeStart child index range
  = Js.Ok (Some (setPath (start range) (PathUtils.rest (path (start range))))).
Proof.
  intros H. unfold relativeStart. rewrite H. simpl. rewrite Nat.eqb_refl. reflexivity.
Qed.

(** The start is clamped to the first text leaf of a child strictly after
    the one the range starts in. *)
Lemma relativeStart_clamp c index range s e :
  PathUtils.first (path (start range)) = Some s ->
  PathUtils.first (path (end_ range)) = Some e ->
  s < index <= e ->
  object_of c = text \/ texts forward c <> [] ->
  exists p, relativeStart (Some c) index range = Js.Ok (Some p)
            /\ offset p = 0
            /\ (object_of c = text -> path p = [index]).
Proof.
  intros Hs He [Hlt Hle] Hc. unfold relativeStart. rewrite Hs, He. simpl.
  destruct (Nat.eqb_spec s index) as [-> | _]; [lia |].
  destruct (Nat.ltb_spec s index); [| lia].
  destruct (Nat.leb_spec index e); [| lia]. simpl.
  destruct (object_of c) eqn:Ho;
    try (destruct Hc as [Hc | Hc]; [discriminate |];
         destruct (texts forward c) as [| [t p] l]; [congruence |];
         eexists; split; [reflexivity | split; [reflexivity | discriminate]]).
  eexists; split; [reflexivity | split; reflexivity].
Qed.

(** Away from the span of the range, or with no leading component, there is
    no start. *)
Lemma relativeStart_none child index range :
  Js.strict_eq (PathUtils.first (path (start range))) index = false ->
  Js.lt_l (PathUtils.first (path (start range))) index
    && Js.le_r index (PathUtils.first (path (end_ range))) = false ->
  relativeStart child index range = Js.Ok None.
Proof. intros H1 H2. unfold relativeStart. rewrite H1, H2. reflexivity. Qed.

Lemma relativeEnd_rebase child index range :
  PathUtils.first (path (end_ range)) = Some index ->
  relativeEnd child index range
  = Js.Ok (Some (setPath (end_ range) (PathUtils.rest (path (end_ range))))).
Proof.
  intros H. unfold relativeEnd. rewrite H. simpl. rewrite Nat.eqb_refl. reflexivity.
Qed.

Lemma relativeEnd_clamp c index range s e :
  PathUtils.first (path (start range)) = Some s ->
  PathUtils.first (path (end_ range)) = Some e ->
  s <= index < e ->
  object_of c = text \/ texts forward c <> [] ->
  exists p, relativeEnd (Some c) index range = Js.Ok (Some p)
            /\ (object_of c = text ->
                path p = [index] /\ text_length c = Js.Ok (offset p)).
Proof.
  intros Hs He [Hle Hlt] Hc. unfold relativeEnd. rewrite Hs, He. simpl.
  destruct (Nat.eqb_spec e index) as [-> | _]; [lia |].
  destruct (Nat.leb_spec s index); [| lia].
  destruct (Nat.ltb_spec index e); [| lia]. simpl.
  assert (Hinner : object_of c <> text ->
            exists p,
              match texts backward c with
              | [] => Js.TypeError
              | (lastNode, lastPath) :: _ =>
                  let* len := text_length lastNode in
                  Js.Ok (Some (moveTo (end_ range) lastPath len))
              end = Js.Ok (Some p)).
  { intros Hne. destruct Hc as [Hc | Hc]; [contradiction |].
    pose proof (texts_yield_text backward c) as Hall.
    destruct (texts backward c) as [| [t p] l] eqn:Hb.
    - apply texts_backward_nil in Hb. contradiction.
    - apply Forall_cons in Hall as [Ht _]. simpl in Ht.
      destruct (text_length_text t Ht) as [len Hlen]. rewrite Hlen. simpl.
      eexists; reflexivity. }
  destruct (object_of c) eqn:Ho;
    try (destruct Hinner as [p Hp]; [discriminate |];
         exists p; split; [exact Hp | discriminate]).
  destruct (text_length_text c Ho) as [len Hlen]. rewrite Hlen. simpl.
  eexists; split; [reflexivity |]. intros _. split; reflexivity.
Qed.

Lemma relativeEnd_none child index range :
  Js.strict_eq (PathUtils.first (path (end_ range))) index = false ->
  Js.le_l (PathUtils.first (path (start range))) index
    && Js.lt_r index (PathUtils.first (path (end_ range))) = false ->
  relativeEnd child index range = Js.Ok None.
Proof. intros H1 H2. unfold relativeEnd. rewrite H1, H2. reflexivity. Qed.

(** A missing start never lets the end raise, and the other way round: the
    two clamping conditions overlap on every index strictly inside. *)
Lemma relativeStart_null_end_returns child index range :
  relativeStart child index range = Js.Ok None ->
  exists e', relativeEnd child index range = Js.Ok e'.
Proof.
  unfold relativeStart, relativeEnd.
  destruct (PathUtils.first (path (start range))) as [s |],
           (PathUtils.first (path (end_ range))) as [e |];
    simpl; intros H; index_cases; eauto; try discriminate; try lia;
    exfalso; unfold Js.bind in H; repeat case_match; discriminate.
Qed.

Lemma relativeEnd_null_start_returns child index range :
  relativeEnd child index range = Js.Ok None ->
  exists s', relativeStart child index range = Js.Ok s'.
Proof.
  unfold relativeStart, relativeEnd.
  destruct (PathUtils.first (path (start range))) as [s |],
           (PathUtils.first (path (end_ range))) as [e |];
    simpl; intros H; index_cases; eauto; try discriminate; try lia;
    exfalso; unfold Js.bind in H; repeat case_match; discriminate.
Qed.

(** C1, as the code behaves on the exact-boundary example: the range from
    offset 2 of "Hello" to offset 3 of "World" projects onto child 0 with the
    start rebased to (path [], offset 2) and the end clamped to offset 5 but
    at path [0], and onto child 1 with the start clamped to offset 0 but at
    path [1] and the end rebased to (path [], offset 3): a point clamped onto
    a text child keeps the path of that child in its parent, [index], where
    the rebased point has the empty path. *)
Theorem exact_boundary_projection :
  getRelativeRange Fixture.paragraph 0 Fixture.boundary
  = Js.Ok (Some (Fixture.deco (mkPoint [] 2) (mkPoint [0] 5)))
  /\ getRelativeRange Fixture.paragraph 1 Fixture.boundary
     = Js.Ok (Some (Fixture.deco (mkPoint [1] 0) (mkPoint [] 3))).
Proof. split; reflexivity. Qed.

(** C10: on a node with children, a range whose start path is empty
    projects to null onto every child index, without raising. *)
Theorem empty_start_path_projects_to_null node ns index range :
  nodes_of node = Js.Ok ns ->
  path (start range) = [] ->
  getRelativeRange node index range = Js.Ok None.
Proof.
  intros Hns Hp. unfold getRelativeRange. rewrite Hns. simpl.
  rewrite relativeStart_none by (rewrite Hp; reflexivity). simpl.
  destruct (relativeStart_null_end_returns (ns !! index) index range) as [e' He'].
  { apply relativeStart_none; rewrite Hp; reflexivity. }
  rewrite He'. reflexivity.
Qed.

Lemma empty_start_path_projects_to_null_witness :
  nodes_of Fixture.paragraph = Js.Ok [Fixture.hello; Fixture.world]
  /\ path (start Fixture.rootStart) = []
  /\ getRelativeRange Fixture.paragraph 1 Fixture.rootStart = Js.Ok None.
Proof.
  split; [reflexivity |]. split; [reflexivity |].
  apply (empty_start_path_projects_to_null
           Fixture.paragraph [Fixture.hello; Fixture.world] 1 Fixture.rootStart);
    reflexivity.
Defined.

(** The projection is null as soon as one endpoint is. *)
Lemma getRelativeRange_null node ns index range :
  nodes_of node = Js.Ok ns ->
  relativeStart (ns !! index) index range = Js.Ok None
  \/ relativeEnd (ns !! index) index range = Js.Ok None ->
  getRelativeRange node index range = Js.Ok None.
Proof.
  intros Hns. unfold getRelativeRange. rewrite Hns. simpl. intros [Hs | He].
  - destruct (relativeStart_null_end_returns _ _ _ Hs) as [e' He'].
    rewrite Hs, He'. reflexivity.
  - destruct (relativeEnd_null_start_returns _ _ _ He) as [s' Hs'].
    rewrite Hs', He. simpl. destruct s'; reflexivity.
Qed.

(** The projection of two resolved endpoints. *)
Lemma getRelativeRange_resolved node ns index range s e :
  nodes_of node = Js.Ok ns ->
  relativeStart (ns !! index) index range = Js.Ok (Some s) ->
  relativeEnd (ns !! index) index range = Js.Ok (Some e) ->
  getRelativeRange node index range
  = Js.Ok (Some {| start := s; end_ := e; meta := meta range |}).
Proof.
  intros Hns Hs He. unfold getRelativeRange. rewrite Hns. simpl.
  rewrite Hs, He. reflexivity.
Qed.

(** C8: when both projected endpoints resolve, the projector returns the
    range with exactly these endpoints and the metadata of the input; when
    either endpoint is null, it returns null. *)
Theorem projection_keeps_metadata node ns index range :
  nodes_of node = Js.Ok ns ->
  (forall s e,
      relativeStart (ns !! index) index range = Js.Ok (Some s) ->
      relativeEnd (ns !! index) index range = Js.Ok (Some e) ->
      exists r,
        getRelativeRange node index range = Js.Ok (Some r)
        /\ start r = s /\ end_ r = e /\ meta r = meta range)
  /\ (relativeStart (ns !! index) index range = Js.Ok None
      \/ relativeEnd (ns !! index) index range = Js.Ok None ->
      getRelativeRange node index range = Js.Ok None).
Proof.
  intros Hns. split.
  - intros s e Hs He. eexists. split.
    + apply (getRelativeRange_resolved node ns index range s e Hns Hs He).
    + repeat split.
  - apply (getRelativeRange_null node ns index range Hns).
Qed.

Lemma projection_keeps_metadata_witness :
  (exists r,
      getRelativeRange Fixture.paragraph 0 Fixture.boundary = Js.Ok (Some r)
      /\ start r = mkPoint [] 2 /\ end_ r = mkPoint [0] 5
      /\ meta r = meta Fixture.boundary)
  /\ getRelativeRange Fixture.paragraph 1 Fixture.beyond = Js.Ok None.
Proof.
  split.
  - apply (proj1 (projection_keeps_metadata
                    Fixture.paragraph [Fixture.hello; Fixture.world] 0
                    Fixture.boundary eq_refl)); reflexivity.
  - apply (proj2 (projection_keeps_metadata
                    Fixture.paragraph [Fixture.hello; Fixture.world] 1
                    Fixture.beyond eq_refl)).
    left. reflexivity.
Defined.




(** C2 fails as stated: the range below is well formed in the document
    [hollow] (start before end, both leading components index existing
    children) and child 1 lies between the child of its start and the child
    of its end, yet the projection onto child 1 raises instead of returning
    a range, because that child holds no text leaf to clamp to. *)
Lemma textless_child_breaks_partition :
  (exists ns, nodes_of Fixture.hollow = Js.Ok ns /\ length ns = 3)
  /\ point_le (start Fixture.across) (end_ Fixture.across) = true
  /\ PathUtils.first (path (start Fixture.across)) = Some 0
  /\ PathUtils.first (path (end_ Fixture.across)) = Some 2
  /\ 0 <= 1 <= 2
  /\ getRelativeRange Fixture.hollow 1 Fixture.across = Js.TypeError
  /\ ~ (exists r, getRelativeRange Fixture.hollow 1 Fixture.across = Js.Ok (Some r)).
Proof.
  split; [eexists; split; reflexivity |].
  split; [reflexivity |]. split; [reflexivity |]. split; [reflexivity |].
  split; [lia |]. split; [reflexivity |].
  intros [r Hr]. vm_compute in Hr. discriminate.
Qed.

(** C2, amended: for a range whose start is at or before its end and whose
    leading components [s] and [e] index existing children, and provided
    that, when [s < e], every child from [s] to [e] is a text or holds a
    text leaf, the projection onto child [i] is a range exactly for the
    indices from [s] to [e] inclusive, and null for every other index. *)
Theorem projection_partition node ns range s e :
  nodes_of node = Js.Ok ns ->
  PathUtils.first (path (start range)) = Some s ->
  PathUtils.first (path (end_ range)) = Some e ->
  point_le (start range) (end_ range) = true ->
  s < length ns ->
  e < length ns ->
  (forall i c, s <= i <= e -> s < e -> ns !! i = Some c ->
               object_of c = text \/ texts forward c <> []) ->
  forall i,
    ((exists r, getRelativeRange node i range = Js.Ok (Some r)) <-> s <= i <= e)
    /\ (~ s <= i <= e -> getRelativeRange node i range = Js.Ok None).
Proof.
  intros Hns Hs He Hle Hsn Hen Htexts i.
  pose proof (point_le_first _ _ s e Hle Hs He) as Hse.
  assert (Hout : ~ s <= i <= e -> getRelativeRange node i range = Js.Ok None).
  { intros Hnot. apply (getRelativeRange_null node ns i range Hns). left.
    apply relativeStart_none; rewrite Hs; try rewrite He; simpl;
      index_cases; reflexivity || lia. }
  split; [split |]; [| | exact Hout].
  - intros [r Hr]. destruct (decide (s <= i <= e)) as [Hin | Hnot]; [exact Hin |].
    rewrite (Hout Hnot) in Hr. discriminate.
  - intros [Hsi Hie].
    destruct (lookup_lt_is_Some_2 ns i) as [c Hc]; [lia |].
    assert (Hstart : exists p, relativeStart (ns !! i) i range = Js.Ok (Some p)).
    { destruct (decide (s = i)) as [-> | Hne].
      - eexists. apply relativeStart_rebase, Hs.
      - rewrite Hc.
        destruct (relativeStart_clamp c i range s e Hs He) as (p & Hp & _);
          [lia | apply (Htexts i c); [lia | lia | exact Hc] | eauto]. }
    assert (Hend : exists p, relativeEnd (ns !! i) i range = Js.Ok (Some p)).
    { destruct (decide (e = i)) as [-> | Hne].
      - eexists. apply relativeEnd_rebase, He.
      - rewrite Hc.
        destruct (relativeEnd_clamp c i range s e Hs He) as (p & Hp & _);
          [lia | apply (Htexts i c); [lia | lia | exact Hc] | eauto]. }
    destruct Hstart as [ps Hps], Hend as [pe Hpe].
    eexists. apply (getRelativeRange_resolved node ns i range ps pe Hns Hps Hpe).
Qed.

Lemma projection_partition_witness :
  ((exists r, getRelativeRange Fixture.article 1 Fixture.across = Js.Ok (Some r))
   <-> 0 <= 1 <= 2)
  /\ (~ 0 <= 3 <= 2 -> getRelativeRange Fixture.article 3 Fixture.across = Js.Ok None).
Proof.
  assert (H : forall i,
             ((exists r, getRelativeRange Fixture.article i Fixture.across
                         = Js.Ok (Some r)) <-> 0 <= i <= 2)
             /\ (~ 0 <= i <= 2 ->
                 getRelativeRange Fixture.article i Fixture.across = Js.Ok None)).
  { refine (projection_partition Fixture.article _ Fixture.across 0 2
              eq_refl eq_refl eq_refl eq_refl _ _ _).
    - simpl; lia.
    - simpl; lia.
    - intros i c Hi _ Hc. right.
      destruct i as [| [| [| i]]]; simpl in Hc; [| | | lia];
        injection Hc as <-; discriminate. }
  split; [apply (H 1) | apply (H 3)].
Defined.

(** ** The update gate *)

Section UpdateGate.

Context {Element : Type} (editor : Editor Element).

(** The built-in checks let the render be skipped exactly when nothing
    they look at moved and the node is neither selected nor focused. *)
Lemma builtinChecks_false p n :
  builtinChecks p n = false
  <-> Props.readOnly n = Props.readOnly p
      /\ node_differs (Props.node n) (Props.node p) = false
      /\ Props.isSelected n = false /\ Props.isSelected p = false
      /\ Props.isFocused n = false /\ Props.isFocused p = false
      /\ Props.annotations n = Props.annotations p
      /\ Props.decorations n = Props.decorations p.
Proof.
  unfold builtinChecks.
  destruct (Props.readOnly n), (Props.readOnly p),
           (node_differs (Props.node n) (Props.node p)),
           (Props.isSelected n), (Props.isSelected p),
           (Props.isFocused n), (Props.isFocused p); simpl;
    try (split; [discriminate | intros (? & ? & ? & ? & ? & ? & ? & ?); discriminate]);
    repeat case_bool_decide; simpl;
    split; try discriminate; try tauto;
    intros (? & ? & ? & ? & ? & ? & ? & ?); contradiction.
Qed.

Lemma builtinChecks_focused p n :
  Props.isFocused n = true \/ Props.isFocused p = true ->
  builtinChecks p n = true.
Proof.
  intros H. destruct (builtinChecks p n) eqn:Hb; [reflexivity |].
  apply builtinChecks_false in Hb as (_ & _ & _ & _ & Hn & Hp & _).
  destruct H; congruence.
Qed.

(** Without a definite yes, the decision is that of the built-in checks. *)
Lemma shouldComponentUpdate_decision p n :
  Js.truthy (run_shouldNodeComponentUpdate editor p n) = false ->
  fst (shouldComponentUpdate editor p n) = builtinChecks p n.
Proof.
  intros H. unfold shouldComponentUpdate. rewrite H.
  destruct (Js.not_nullish _); reflexivity.
Qed.

Lemma shouldComponentUpdate_yes p n :
  Js.truthy (run_shouldNodeComponentUpdate editor p n) = true ->
  shouldComponentUpdate editor p n = (true, []).
Proof.
  intros H. unfold shouldComponentUpdate. rewrite H.
  destruct (run_shouldNodeComponentUpdate editor p n); simpl in *;
    try discriminate; reflexivity.
Qed.

(** C3: a definite yes of the override hook returns update at once; a
    definite no leaves the decision to the built-in checks and only adds
    the warning, so that, with a node reference that differs, the gate
    still returns update. *)
Theorem override_cannot_veto p n :
  (Js.truthy (run_shouldNodeComponentUpdate editor p n) = true ->
   shouldComponentUpdate editor p n = (true, []))
  /\ (run_shouldNodeComponentUpdate editor p n = Js.boolean false ->
      shouldComponentUpdate editor p n = (builtinChecks p n, [veto_warning]))
  /\ (run_shouldNodeComponentUpdate editor p n = Js.boolean false ->
      node_differs (Props.node n) (Props.node p) = true ->
      shouldComponentUpdate editor p n = (true, [veto_warning])).
Proof.
  split; [apply shouldComponentUpdate_yes |].
  assert (Hno : run_shouldNodeComponentUpdate editor p n = Js.boolean false ->
                shouldComponentUpdate editor p n
                = (builtinChecks p n, [veto_warning])).
  { intros H. unfold shouldComponentUpdate. rewrite H. reflexivity. }
  split; [exact Hno |].
  intros H Hnode. rewrite (Hno H). f_equal.
  unfold builtinChecks. rewrite Hnode.
  destruct (negb (Bool.eqb (Props.readOnly n) (Props.readOnly p))); reflexivity.
Qed.

(** C4, amended: the gate returns update when the focused flag differs
    between the old and the new props, and more generally whenever it is
    set in either of them; it returns no update when the override hook
    gives no definite yes, the read-only flag and the node reference are
    unchanged, the node is selected in neither props and focused in
    neither, and the annotation and decoration sets are equal. *)
Theorem focus_forces_update p n :
  (Props.isFocused n <> Props.isFocused p ->
   fst (shouldComponentUpdate editor p n) = true)
  /\ (Props.isFocused n = true \/ Props.isFocused p = true ->
      fst (shouldComponentUpdate editor p n) = true)
  /\ (Js.truthy (run_shouldNodeComponentUpdate editor p n) = false ->
      Props.readOnly n = Props.readOnly p ->
      node_differs (Props.node n) (Props.node p) = false ->
      Props.isSelected n = false -> Props.isSelected p = false ->
      Props.isFocused n = false -> Props.isFocused p = false ->
      Props.annotations n = Props.annotations p ->
      Props.decorations n = Props.decorations p ->
      fst (shouldComponentUpdate editor p n) = false).
Proof.
  assert (Hset : Props.isFocused n = true \/ Props.isFocused p = true ->
                 fst (shouldComponentUpdate editor p n) = true).
  { intros H.
    destruct (Js.truthy (run_shouldNodeComponentUpdate editor p n)) eqn:Hh.
    - rewrite (shouldComponentUpdate_yes p n Hh). reflexivity.
    - rewrite (shouldComponentUpdate_decision p n Hh).
      apply builtinChecks_focused, H. }
  split; [| split; [exact Hset |]].
  - intros Hne. apply Hset.
    destruct (Props.isFocused n), (Props.isFocused p); auto; congruence.
  - intros Hh H1 H2 H3 H4 H5 H6 H7 H8.
    rewrite (shouldComponentUpdate_decision p n Hh).
    apply builtinChecks_false. repeat split; assumption.
Qed.

(** C5, amended: called with identical old and new props, the gate
    returns no update provided the override hook gives no definite yes
    and the node is neither selected nor focused. *)
Theorem identical_props_skip p :
  Js.truthy (run_shouldNodeComponentUpdate editor p p) = false ->
  Props.isSelected p = false ->
  Props.isFocused p = false ->
  fst (shouldComponentUpdate editor p p) = false.
Proof.
  intros Hh Hs Hf. rewrite (shouldComponentUpdate_decision p p Hh).
  apply builtinChecks_false. repeat split; try assumption.
  unfold node_differs. rewrite Pos.eqb_refl. reflexivity.
Qed.

End UpdateGate.

Lemma override_cannot_veto_witness :
  shouldComponentUpdate Fixture.eager Fixture.idle Fixture.idle = (true, [])
  /\ shouldComponentUpdate Fixture.vetoing Fixture.idle Fixture.idle
     = (false, [veto_warning])
  /\ shouldComponentUpdate Fixture.vetoing Fixture.idle Fixture.pasted
     = (true, [veto_warning]).
Proof.
  split; [| split].
  - apply (proj1 (override_cannot_veto Fixture.eager Fixture.idle Fixture.idle)).
    reflexivity.
  - apply (proj1 (proj2 (override_cannot_veto Fixture.vetoing Fixture.idle
                           Fixture.idle))).
    reflexivity.
  - apply (proj2 (proj2 (override_cannot_veto Fixture.vetoing Fixture.idle
                           Fixture.pasted))); reflexivity.
Defined.

(** C4 fails as stated: with the focused flag set and equal in the old and
    the new props, and none of the other update conditions holding, the
    gate returns update. *)
Lemma equal_focus_still_updates :
  Js.truthy (run_shouldNodeComponentUpdate Fixture.silent
               Fixture.focused Fixture.focused) = false
  /\ Props.readOnly Fixture.focused = Props.readOnly Fixture.focused
  /\ node_differs (Props.node Fixture.focused) (Props.node Fixture.focused) = false
  /\ Props.isSelected Fixture.focused = false
  /\ Props.isFocused Fixture.focused = Props.isFocused Fixture.focused
  /\ Props.annotations Fixture.focused = Props.annotations Fixture.focused
  /\ Props.decorations Fixture.focused = Props.decorations Fixture.focused
  /\ shouldComponentUpdate Fixture.silent Fixture.focused Fixture.focused
     = (true, []).
Proof. repeat split. Qed.

Lemma focus_forces_update_witness :
  fst (shouldComponentUpdate Fixture.silent Fixture.idle Fixture.focused) = true
  /\ fst (shouldComponentUpdate Fixture.silent Fixture.focused Fixture.focused) = true
  /\ fst (shouldComponentUpdate Fixture.silent Fixture.idle Fixture.idle) = false.
Proof.
  split; [| split].
  - apply (proj1 (focus_forces_update Fixture.silent Fixture.idle Fixture.focused)).
    discriminate.
  - apply (proj1 (proj2 (focus_forces_update Fixture.silent Fixture.focused
                           Fixture.focused))).
    left. reflexivity.
  - apply (proj2 (proj2 (focus_forces_update Fixture.silent Fixture.idle
                           Fixture.idle))); reflexivity.
Defined.

(** C5 fails as stated: called twice with the same props of a selected
    node, the gate returns update; and so it does on any props for which
    the override hook says yes. *)
Lemma identical_selected_props_update :
  shouldComponentUpdate Fixture.silent Fixture.selected Fixture.selected
  = (true, [])
  /\ shouldComponentUpdate Fixture.eager Fixture.idle Fixture.idle = (true, []).
Proof. split; reflexivity. Qed.

Lemma identical_props_skip_witness :
  fst (shouldComponentUpdate Fixture.silent Fixture.idle Fixture.idle) = false.
Proof.
  apply (identical_props_skip Fixture.silent Fixture.idle); reflexivity.
Defined.

(** ** Rendering *)

Lemma mapM_Ok {A B} (f : A -> Js.result B) xs ys :
  Js.mapM f xs = Js.Ok ys -> Forall2 (fun x y => f x = Js.Ok y) xs ys.
Proof.
  revert ys. induction xs as [| x xs IH]; simpl; intros ys H.
  - injection H as <-. constructor.
  - destruct (f x) as [y |] eqn:Hx; [| discriminate].
    destruct (Js.mapM f xs) as [ys' |]; [| discriminate].
    injection H as <-. constructor; [exact Hx | apply IH; reflexivity].
Qed.

Lemma imapM_lookup {A B} (f : nat -> A -> Js.result B) xs :
  forall j ys i y,
    Js.imapM f j xs = Js.Ok ys ->
    ys !! i = Some y ->
    exists x, xs !! i = Some x /\ f (j + i) x = Js.Ok y.
Proof.
  induction xs as [| x xs IH]; simpl; intros j ys i y H Hy.
  - injection H as <-. discriminate.
  - destruct (f j x) as [y0 |] eqn:Hx; [| discriminate].
    destruct (Js.imapM f (S j) xs) as [ys' |] eqn:Hxs; [| discriminate].
    injection H as <-. destruct i as [| i]; simpl in *.
    + injection Hy as <-. exists x. rewrite Nat.add_0_r. split; [reflexivity | exact Hx].
    + destruct (IH (S j) ys' i y Hxs Hy) as (x' & Hx' & Hf).
      exists x'. split; [exact Hx' |]. rewrite <- Hf. f_equal. lia.
Qed.

Lemma imapM_length {A B} (f : nat -> A -> Js.result B) xs :
  forall j ys, Js.imapM f j xs = Js.Ok ys -> length ys = length xs.
Proof.
  induction xs as [| x xs IH]; simpl; intros j ys H.
  - injection H as <-. reflexivity.
  - destruct (f j x); [| discriminate].
    destruct (Js.imapM f (S j) xs) as [ys' |] eqn:Hxs; [| discriminate].
    injection H as <-. simpl. f_equal. apply (IH (S j)), Hxs.
Qed.

Lemma map_mapM_insert {A B} (f : A -> Js.result B) (m : gmap string A) k a :
  m !! k = None ->
  map_first_key (<[k:=a]> m) k ->
  Js.map_mapM f (<[k:=a]> m)
  = match Js.map_mapM f m with
    | Js.Ok m' => match f a with Js.Ok b => Js.Ok (<[k:=b]> m') | Js.TypeError => Js.TypeError end
    | Js.TypeError => Js.TypeError
    end.
Proof.
  intros Hk Hfirst. unfold Js.map_mapM.
  rewrite map_fold_insert_first_key by assumption. reflexivity.
Qed.

Lemma map_mapM_Ok {A B} (f : A -> Js.result B) (m : gmap string A) :
  forall m', Js.map_mapM f m = Js.Ok m' ->
  forall k, match m !! k with
            | Some a => exists b, f a = Js.Ok b /\ m' !! k = Some b
            | None => m' !! k = None
            end.
Proof.
  induction m as [| j a m Hj Hfirst IH] using map_first_key_ind; intros m' H k.
  - unfold Js.map_mapM in H. rewrite map_fold_empty in H. injection H as <-.
    rewrite !lookup_empty. reflexivity.
  - rewrite (map_mapM_insert f m j a Hj Hfirst) in H.
    destruct (Js.map_mapM f m) as [m0 |]; [| discriminate].
    destruct (f a) as [b |] eqn:Hfa; [| discriminate].
    injection H as <-. specialize (IH m0 eq_refl k).
    destruct (decide (j = k)) as [-> | Hne].
    + rewrite !lookup_insert_eq. exists b. split; [exact Hfa | reflexivity].
    + rewrite !lookup_insert_ne by exact Hne. exact IH.
Qed.

(** Mapping the projector and dropping the nulls is the null-dropping
    projection, as soon as no projection raises. *)
Lemma filter_truthy_projected node i ds projected :
  Js.mapM (fun d => getRelativeRange node i d) ds = Js.Ok projected ->
  Js.filter_truthy projected = omap (project node i) ds
  /\ Forall (fun d => getRelativeRange node i d <> Js.TypeError) ds.
Proof.
  intros H. apply mapM_Ok in H. unfold Js.filter_truthy.
  induction H as [| d r ds rs Hd _ [IH1 IH2]]; [split; [reflexivity | constructor] |].
  split.
  - change (omap id (r :: rs)) with (match r with Some x => x :: omap id rs | None => omap id rs end).
    change (omap (project node i) (d :: ds))
      with (match project node i d with
            | Some x => x :: omap (project node i) ds
            | None => omap (project node i) ds
            end).
    unfold project at 1. rewrite Hd, IH1. destruct r; reflexivity.
  - constructor; [rewrite Hd; discriminate | exact IH2].
Qed.

Lemma map_filter_truthy_projected node i (anns : gmap string Range) projected :
  Js.map_mapM (fun a => getRelativeRange node i a) anns = Js.Ok projected ->
  Js.map_filter_truthy projected = omap (project node i) anns
  /\ (forall k a, anns !! k = Some a -> getRelativeRange node i a <> Js.TypeError).
Proof.
  intros H. pose proof (map_mapM_Ok _ anns projected H) as Hlookup. split.
  - apply map_eq. intros k. unfold Js.map_filter_truthy.
    rewrite !lookup_omap. specialize (Hlookup k).
    destruct (anns !! k) as [a |]; simpl.
    + destruct Hlookup as (b & Hb & ->). simpl. unfold project. rewrite Hb.
      destruct b; reflexivity.
    + rewrite Hlookup. reflexivity.
  - intros k a Ha. specialize (Hlookup k). rewrite Ha in Hlookup.
    destruct Hlookup as (b & Hb & _). rewrite Hb. discriminate.
Qed.

Section Render.

Context {Element : Type} (editor : Editor Element).
Context (Void : Props.t -> Element -> Element).
Context (getDecorations : Node -> list Range).
Context (getTextDirection : Node -> TextDirection).

(** What a successful callback of line 138 put into the child element. *)
Lemma childElement_Ok props newDecorations i child el :
childElement props newDecorations i child = Js.Ok el ->
Child.node el = child
/\ Child.decorations el
   = omap (project (Props.node props) i) newDecorations ++ Props.decorations props
/\ Child.annotations el
   = omap (project (Props.node props) i) (Props.annotations props)
/\ Forall (fun d => getRelativeRange (Props.node props) i d <> Js.TypeError)
          newDecorations
/\ (forall k a, Props.annotations props !! k = Some a ->
                getRelativeRange (Props.node props) i a <> Js.TypeError).
Proof.
unfold childElement. intros H.
destruct (match Props.selection props with
          | Some selection => getRelativeRange (Props.node props) i selection
          | None => Js.Ok None
          end) as [sel |]; [| discriminate].
simpl in H.
destruct (Js.mapM _ newDecorations) as [projected |] eqn:Hdecs; [| discriminate].
simpl in H.
destruct (Js.map_mapM _ (Props.annotations props)) as [projected' |] eqn:Hanns;
  [| discriminate].
simpl in H. injection H as <-. simpl.
destruct (filter_truthy_projected _ _ _ _ Hdecs) as [-> Hd].
destruct (map_filter_truthy_projected _ _ _ _ Hanns) as [-> Ha].
repeat split; assumption.
Qed.

(** C7: when a node renders, the element of child [i] carries as
  decorations the fresh decorations of the node, each projected onto
  child [i] with the nulls dropped, followed by the inherited decorations
  as they are, and as annotations the inherited annotations, each
  projected onto child [i] with the nulls dropped; none of these
  projections raised. *)
Theorem child_overlays props children i el :
renderChildren getDecorations props = Js.Ok children ->
children !! i = Some el ->
(exists ns, nodes_of (Props.node props) = Js.Ok ns
            /\ length children = length ns
            /\ ns !! i = Some (Child.node el))
/\ Child.decorations el
   = omap (project (Props.node props) i) (getDecorations (Props.node props))
     ++ Props.decorations props
/\ Child.annotations el
   = omap (project (Props.node props) i) (Props.annotations props)
/\ Forall (fun d => getRelativeRange (Props.node props) i d <> Js.TypeError)
          (getDecorations (Props.node props))
/\ (forall k a, Props.annotations props !! k = Some a ->
                getRelativeRange (Props.node props) i a <> Js.TypeError).
Proof.
unfold renderChildren. intros H Hel.
destruct (nodes_of (Props.node props)) as [ns |] eqn:Hns; [| discriminate].
simpl in H.
destruct (imapM_lookup _ ns 0 children i el H Hel) as (child & Hchild & Hok).
simpl in Hok.
destruct (childElement_Ok _ _ _ _ _ Hok) as (Hnode & Hdecs & Hanns & Hd & Ha).
split; [| repeat split; assumption].
exists ns. split; [reflexivity |].
split; [apply (imapM_length _ ns 0 children H) |].
rewrite Hnode. exact Hchild.
Qed.

(** C9: when the children of a node render, the hook that is run is the
    one of the category of the node ([renderDocument] for a document,
    [renderBlock] for a block, [renderInline] for an inline); when the
    editor says that the node is void, [render] returns the output of the
    hook wrapped in the void wrapper with the props of the component, and
    otherwise it returns the output of the hook itself. *)
Theorem render_dispatch props children :
  renderChildren getDecorations props = Js.Ok children ->
  exists hook,
    (object_of (Props.node props) = document -> hook = renderDocument)
    /\ (object_of (Props.node props) = block -> hook = renderBlock)
    /\ (object_of (Props.node props) = inline -> hook = renderInline)
    /\ object_of (Props.node props) <> text
    /\ let element :=
         run_render editor (Some hook) (hookArgs getTextDirection props children) in
       (isVoid editor (Props.node props) = true ->
        render editor Void getDecorations getTextDirection props
        = Js.Ok (Void props element))
       /\ (isVoid editor (Props.node props) = false ->
           render editor Void getDecorations getTextDirection props
           = Js.Ok element).
Proof.
  intros Hc. unfold render. rewrite Hc. simpl.
  assert (Hobj : object_of (Props.node props) <> text).
  { unfold renderChildren in Hc. destruct (Props.node props); simpl in *; discriminate. }
  unfold renderHook.
  destruct (object_of (Props.node props)) eqn:Ho; [| | | congruence];
    eexists;
    repeat (split; [first [discriminate | intros _; reflexivity] |]);
    split; intros ->; reflexivity.
Qed.

End Render.

Lemma child_overlays_witness :
  exists el,
    Child.decorations el
    = [Fixture.deco (mkPoint [1] 0) (mkPoint [] 3);
       Fixture.deco (mkPoint [] 1) (mkPoint [] 2);
       Fixture.deco (mkPoint [] 0) (mkPoint [] 1)]
    /\ Child.annotations el
       = {["c2" := mkRange (mkPoint [] 0) (mkPoint [] 2)
                           (AnnotationMeta "c2" "comment" [])]}.
Proof.
  destruct (renderChildren Fixture.decorate Fixture.annotated) as [children |] eqn:Hc;
    [| vm_compute in Hc; discriminate].
  destruct (children !! 1) as [el |] eqn:Hel.
  - exists el.
    destruct (child_overlays Fixture.decorate Fixture.annotated children 1 el Hc Hel)
      as (_ & -> & -> & _).
    split; [reflexivity |]. apply map_eq. intros k. rewrite lookup_omap.
    unfold Fixture.annotated. simpl.
    destruct (decide (k = "c1")) as [-> | H1]; [reflexivity |].
    destruct (decide (k = "c2")) as [-> | H2]; [reflexivity |].
    rewrite !lookup_insert_ne, lookup_empty by congruence.
    rewrite lookup_singleton_ne by congruence. reflexivity.
  - exfalso. vm_compute in Hc. injection Hc as <-. discriminate.
Defined.

Lemma render_dispatch_witness :
  exists children,
    renderChildren Fixture.decorate Fixture.idle = Js.Ok children
    /\ render Fixture.voiding Fixture.VoidWrapper Fixture.decorate
              Fixture.direction Fixture.idle
       = Js.Ok (Fixture.VoidWrapper Fixture.idle
                  (Fixture.Rendered (Some renderBlock)
                     (hookArgs Fixture.direction Fixture.idle children)))
    /\ render Fixture.silent Fixture.VoidWrapper Fixture.decorate
              Fixture.direction Fixture.idle
       = Js.Ok (Fixture.Rendered (Some renderBlock)
                  (hookArgs Fixture.direction Fixture.idle children)).
Proof.
  destruct (renderChildren Fixture.decorate Fixture.idle) as [children |] eqn:Hc;
    [| vm_compute in Hc; discriminate].
  exists children. split; [reflexivity |]. split.
  - destruct (render_dispatch Fixture.voiding Fixture.VoidWrapper Fixture.decorate
                Fixture.direction Fixture.idle children Hc)
      as (hook & _ & Hb & _ & _ & Hv & _).
    rewrite (Hv eq_refl), (Hb eq_refl). reflexivity.
  - destruct (render_dispatch Fixture.silent Fixture.VoidWrapper Fixture.decorate
                Fixture.direction Fixture.idle children Hc)
      as (hook & _ & Hb & _ & _ & _ & Hn).
    rewrite (Hn eq_refl), (Hb eq_refl). reflexivity.
Defined.

(** * Further properties of the component *)

(** ** More on the range projector *)

(** A start that resolved is either the rebased start, or the clamp at
    offset 0 of a child strictly after the one the range starts in. *)
Lemma relativeStart_Some_inv child index range p :
  relativeStart child index range = Js.Ok (Some p) ->
  exists s,
    PathUtils.first (path (start range)) = Some s
    /\ ((s = index
         /\ p = mkPoint (PathUtils.rest (path (start range))) (offset (start range)))
        \/ (s < index /\ offset p = 0
            /\ exists e, PathUtils.first (path (end_ range)) = Some e /\ index <= e)).
Proof.
  unfold relativeStart.
  destruct (PathUtils.first (path (start range))) as [s |]; simpl; [| discriminate].
  destruct (Nat.eqb_spec s index) as [-> | Hne].
  - intros [= <-]. exists index. split; [reflexivity |]. left. split; reflexivity.
  - destruct (PathUtils.first (path (end_ range))) as [e |]; simpl;
      [| rewrite andb_false_r; discriminate].
    destruct (Nat.ltb_spec s index) as [Hlt | Hge],
             (Nat.leb_spec index e) as [Hle | Hgt]; simpl;
      try discriminate.
    intros Hp. exists s. split; [reflexivity |]. right. split; [assumption |].
    split; [| exists e; split; [reflexivity | assumption]].
    repeat case_match; try discriminate; injection Hp as <-; reflexivity.
Qed.

Lemma relativeEnd_Some_inv child index range p :
  relativeEnd child index range = Js.Ok (Some p) ->
  exists e,
    PathUtils.first (path (end_ range)) = Some e
    /\ ((e = index
         /\ p = mkPoint (PathUtils.rest (path (end_ range))) (offset (end_ range)))
        \/ (index < e
            /\ exists s, PathUtils.first (path (start range)) = Some s /\ s <= index)).
Proof.
  unfold relativeEnd.
  destruct (PathUtils.first (path (end_ range))) as [e |]; simpl;
    [| rewrite andb_false_r; discriminate].
  destruct (Nat.eqb_spec e index) as [-> | Hne].
  - intros [= <-]. exists index. split; [reflexivity |]. left. split; reflexivity.
  - destruct (PathUtils.first (path (start range))) as [s |]; simpl; [| discriminate].
    destruct (Nat.leb_spec s index) as [Hle | Hgt],
             (Nat.ltb_spec index e) as [Hlt | Hge]; simpl;
      try discriminate.
    intros _. exists e. split; [reflexivity |]. right. split; [assumption |].
    exists s. split; [reflexivity | assumption].
Qed.

(** What a returned range is made of. *)
Lemma getRelativeRange_Some_inv node index range r :
  getRelativeRange node index range = Js.Ok (Some r) ->
  exists ns ps pe,
    nodes_of node = Js.Ok ns
    /\ relativeStart (ns !! index) index range = Js.Ok (Some ps)
    /\ relativeEnd (ns !! index) index range = Js.Ok (Some pe)
    /\ r = {| start := ps; end_ := pe; meta := meta range |}.
Proof.
  unfold getRelativeRange. intros H.
  destruct (nodes_of node) as [ns |]; [| discriminate]. simpl in H.
  destruct (relativeStart (ns !! index) index range) as [[ps |] |] eqn:Hs;
    simpl in H; try discriminate;
    destruct (relativeEnd (ns !! index) index range) as [[pe |] |] eqn:He;
    simpl in H; try discriminate.
  injection H as <-. exists ns, ps, pe. repeat split; assumption.
Qed.

(** X1: a range whose start and whose end both lie in the child at
    [index] is projected onto that index to a range: the result is never
    null and nothing is raised, even where the node has no child at that
    index, since the child is not looked at. *)
Theorem range_within_child_is_projected node ns index range :
  nodes_of node = Js.Ok ns ->
  PathUtils.first (path (start range)) = Some index ->
  PathUtils.first (path (end_ range)) = Some index ->
  exists r, getRelativeRange node index range = Js.Ok (Some r).
Proof.
  intros Hns Hs He. eexists.
  apply (getRelativeRange_resolved node ns index range
           (setPath (start range) (PathUtils.rest (path (start range))))
           (setPath (end_ range) (PathUtils.rest (path (end_ range)))) Hns).
  - apply relativeStart_rebase, Hs.
  - apply relativeEnd_rebase, He.
Qed.

Lemma range_within_child_is_projected_witness :
  (exists r,
      getRelativeRange Fixture.paragraph 0
        (Fixture.deco (mkPoint [0] 1) (mkPoint [0] 4)) = Js.Ok (Some r))
  /\ (exists r,
         getRelativeRange Fixture.paragraph 7
           (Fixture.deco (mkPoint [7; 2] 1) (mkPoint [7; 3] 4)) = Js.Ok (Some r)).
Proof.
  split.
  - apply (range_within_child_is_projected Fixture.paragraph
             [Fixture.hello; Fixture.world] 0
             (Fixture.deco (mkPoint [0] 1) (mkPoint [0] 4))); reflexivity.
  - apply (range_within_child_is_projected Fixture.paragraph
             [Fixture.hello; Fixture.world] 7
             (Fixture.deco (mkPoint [7; 2] 1) (mkPoint [7; 3] 4))); reflexivity.
Defined.

(** X2: whenever the projection is a range, both paths of the input have
    a leading component and the index lies between the two. *)
Theorem projection_inversion node index range r :
  getRelativeRange node index range = Js.Ok (Some r) ->
  exists s e,
    PathUtils.first (path (start range)) = Some s
    /\ PathUtils.first (path (end_ range)) = Some e
    /\ s <= index <= e.
Proof.
  intros H.
  destruct (getRelativeRange_Some_inv _ _ _ _ H) as (ns & ps & pe & _ & Hs & He & _).
  destruct (relativeStart_Some_inv _ _ _ _ Hs) as (s & Hfs & Hcs).
  destruct (relativeEnd_Some_inv _ _ _ _ He) as (e & Hfe & Hce).
  exists s, e. split; [exact Hfs |]. split; [exact Hfe |].
  destruct Hcs as [[-> _] | (Hlt & _ & e' & He' & Hle)];
    destruct Hce as [[-> _] | (Hlt' & s' & Hs' & Hle')];
    try (rewrite Hfe in He'; injection He' as <-);
    try (rewrite Hfs in Hs'; injection Hs' as <-); lia.
Qed.

Lemma projection_inversion_witness :
  exists s e,
    PathUtils.first (path (start Fixture.boundary)) = Some s
    /\ PathUtils.first (path (end_ Fixture.boundary)) = Some e
    /\ s <= 1 <= e.
Proof.
  apply (projection_inversion Fixture.paragraph 1 Fixture.boundary
           (Fixture.deco (mkPoint [1] 0) (mkPoint [] 3))).
  reflexivity.
Defined.

(** X3: a range whose start lies in a later child than its end projects to
    null onto every index, and nothing is raised. *)
Theorem backward_range_projects_to_null node ns index range s e :
  nodes_of node = Js.Ok ns ->
  PathUtils.first (path (start range)) = Some s ->
  PathUtils.first (path (end_ range)) = Some e ->
  e < s ->
  getRelativeRange node index range = Js.Ok None.
Proof.
  intros Hns Hs He Hlt. apply (getRelativeRange_null node ns index range Hns).
  destruct (decide (s = index)) as [-> | Hne].
  - right. apply relativeEnd_none; rewrite ?Hs, ?He; simpl;
      index_cases; reflexivity || lia.
  - left. apply relativeStart_none; rewrite ?Hs, ?He; simpl;
      index_cases; reflexivity || lia.
Qed.

Lemma backward_range_projects_to_null_witness :
  getRelativeRange Fixture.paragraph 1
    (Fixture.deco (mkPoint [1] 3) (mkPoint [0] 2)) = Js.Ok None.
Proof.
  apply (backward_range_projects_to_null Fixture.paragraph
           [Fixture.hello; Fixture.world] 1
           (Fixture.deco (mkPoint [1] 3) (mkPoint [0] 2)) 1 0);
    [reflexivity | reflexivity | reflexivity | lia].
Defined.

(** X4: a range whose end path is empty projects to null onto every index,
    and nothing is raised. *)
Theorem empty_end_path_projects_to_null node ns index range :
  nodes_of node = Js.Ok ns ->
  path (end_ range) = [] ->
  getRelativeRange node index range = Js.Ok None.
Proof.
  intros Hns Hp. apply (getRelativeRange_null node ns index range Hns). right.
  apply relativeEnd_none; rewrite Hp; simpl; [reflexivity |].
  apply andb_false_r.
Qed.

Lemma empty_end_path_projects_to_null_witness :
  getRelativeRange Fixture.paragraph 0
    (Fixture.deco (mkPoint [0] 2) (mkPoint [] 0)) = Js.Ok None.
Proof.
  apply (empty_end_path_projects_to_null Fixture.paragraph
           [Fixture.hello; Fixture.world] 0
           (Fixture.deco (mkPoint [0] 2) (mkPoint [] 0))); reflexivity.
Defined.

(** X7: projecting onto an index at which the node has no child raises as
    soon as the range reaches that index from a different child on either
    side: the clamp reads a field of the missing child. *)
Theorem missing_child_raises node ns index range s e :
  nodes_of node = Js.Ok ns ->
  length ns <= index ->
  PathUtils.first (path (start range)) = Some s ->
  PathUtils.first (path (end_ range)) = Some e ->
  s <= index <= e ->
  s < e ->
  getRelativeRange node index range = Js.TypeError.
Proof.
  intros Hns Hlen Hs He [Hsi Hie] Hse.
  unfold getRelativeRange. rewrite Hns. simpl.
  rewrite (lookup_ge_None_2 ns index Hlen).
  unfold relativeStart, relativeEnd. rewrite Hs, He. simpl.
  index_cases; reflexivity || lia.
Qed.

Lemma missing_child_raises_witness :
  getRelativeRange Fixture.paragraph 7 Fixture.beyond = Js.TypeError.
Proof.
  apply (missing_child_raises Fixture.paragraph [Fixture.hello; Fixture.world] 7
           Fixture.beyond 7 8);
    [reflexivity | simpl; lia | reflexivity | reflexivity | lia | lia].
Defined.

(** Against a child that is a text or holds a text leaf, neither endpoint
    raises, whatever the range. *)
Lemma relativeStart_returns c index range :
  object_of c = text \/ texts forward c <> [] ->
  exists p, relativeStart (Some c) index range = Js.Ok p.
Proof.
  intros Hc. unfold relativeStart.
  destruct (Js.strict_eq _ index); [eauto |].
  destruct (Js.lt_l _ index && Js.le_r index _); [| eauto].
  destruct (object_of c) eqn:Ho;
    try (destruct Hc as [Hc | Hc]; [discriminate |];
         destruct (texts forward c) as [| [t p] l]; [congruence | eauto]).
  eauto.
Qed.

Lemma relativeEnd_returns c index range :
  object_of c = text \/ texts forward c <> [] ->
  exists p, relativeEnd (Some c) index range = Js.Ok p.
Proof.
  intros Hc. unfold relativeEnd.
  destruct (Js.strict_eq _ index); [eauto |].
  destruct (Js.le_l _ index && Js.lt_r index _); [| eauto].
  assert (Hinner : object_of c <> text ->
            exists p,
              match texts backward c with
              | [] => Js.TypeError
              | (lastNode, lastPath) :: _ =>
                  let* len := text_length lastNode in
                  Js.Ok (Some (moveTo (end_ range) lastPath len))
              end = Js.Ok p).
  { intros Hne. destruct Hc as [Hc | Hc]; [contradiction |].
    pose proof (texts_yield_text backward c) as Hall.
    destruct (texts backward c) as [| [t p] l] eqn:Hb.
    - apply texts_backward_nil in Hb. contradiction.
    - apply Forall_cons in Hall as [Ht _]. simpl in Ht.
      destruct (text_length_text t Ht) as [len Hlen]. rewrite Hlen. simpl. eauto. }
  destruct (object_of c) eqn:Ho; try (apply Hinner; discriminate).
  destruct (text_length_text c Ho) as [len Hlen]. rewrite Hlen. simpl. eauto.
Qed.

Lemma getRelativeRange_returns node ns index c range :
  nodes_of node = Js.Ok ns ->
  ns !! index = Some c ->
  object_of c = text \/ texts forward c <> [] ->
  exists r, getRelativeRange node index range = Js.Ok r.
Proof.
  intros Hns Hc Htext. unfold getRelativeRange. rewrite Hns. simpl. rewrite Hc.
  destruct (relativeStart_returns c index range Htext) as [ps ->].
  destruct (relativeEnd_returns c index range Htext) as [pe ->].
  simpl. destruct ps, pe; eauto.
Qed.

(** X10: onto an existing child that is a text, or that holds at least one
    text leaf, the projection of a range both of whose points carry a path
    (empty or not, in range or not, in order or not) returns, a range or
    null, and does not raise. *)
Theorem projection_returns node ns index c range :
  nodes_of node = Js.Ok ns ->
  ns !! index = Some c ->
  object_of c = text \/ texts forward c <> [] ->
  getRelativeRange node index range <> Js.TypeError.
Proof.
  intros Hns Hc Htext.
  destruct (getRelativeRange_returns node ns index c range Hns Hc Htext) as [r ->].
  discriminate.
Qed.

Lemma projection_returns_witness :
  getRelativeRange Fixture.paragraph 1 Fixture.overlong <> Js.TypeError.
Proof.
  apply (projection_returns Fixture.paragraph [Fixture.hello; Fixture.world] 1
           Fixture.world Fixture.overlong);
    [reflexivity | reflexivity | left; reflexivity].
Defined.

(** ** More on the update gate *)

Section UpdateGateMore.

Context {Element : Type} (editor : Editor Element).

Lemma builtinChecks_sym p n : builtinChecks p n = builtinChecks n p.
Proof.
  destruct (builtinChecks p n) eqn:H1, (builtinChecks n p) eqn:H2;
    try reflexivity.
  - apply builtinChecks_false in H2 as (Ha & Hb & Hc & Hd & He & Hf & Hg & Hh).
    assert (H : builtinChecks p n = false); [| congruence].
    apply builtinChecks_false. repeat split; try solve [assumption | congruence].
    unfold node_differs in *. rewrite Pos.eqb_sym. exact Hb.
  - apply builtinChecks_false in H1 as (Ha & Hb & Hc & Hd & He & Hf & Hg & Hh).
    assert (H : builtinChecks n p = false); [| congruence].
    apply builtinChecks_false. repeat split; try solve [assumption | congruence].
    unfold node_differs in *. rewrite Pos.eqb_sym. exact Hb.
Qed.

(** X11: the gate returns update exactly when the override hook returns a
    truthy value, or the read-only flag differs, or the node is another
    object, or the node is selected or focused in the old or the new props,
    or the annotations or the decorations differ. *)
Theorem update_decision p n :
  fst (shouldComponentUpdate editor p n) = true
  <-> Js.truthy (run_shouldNodeComponentUpdate editor p n) = true
      \/ Props.readOnly n <> Props.readOnly p
      \/ node_differs (Props.node n) (Props.node p) = true
      \/ Props.isSelected n = true \/ Props.isSelected p = true
      \/ Props.isFocused n = true \/ Props.isFocused p = true
      \/ Props.annotations n <> Props.annotations p
      \/ Props.decorations n <> Props.decorations p.
Proof.
  destruct (Js.truthy (run_shouldNodeComponentUpdate editor p n)) eqn:Hh.
  - rewrite (shouldComponentUpdate_yes editor p n Hh). simpl. tauto.
  - rewrite (shouldComponentUpdate_decision editor p n Hh).
    pose proof (builtinChecks_false p n) as Hfalse.
    destruct (builtinChecks p n).
    + split; [| reflexivity]. intros _. right.
      destruct (decide (Props.readOnly n = Props.readOnly p)); [| tauto].
      destruct (node_differs (Props.node n) (Props.node p)); [tauto |].
      destruct (Props.isSelected n); [tauto |].
      destruct (Props.isSelected p); [tauto |].
      destruct (Props.isFocused n); [tauto |].
      destruct (Props.isFocused p); [tauto |].
      destruct (decide (Props.annotations n = Props.annotations p)); [| tauto].
      destruct (decide (Props.decorations n = Props.decorations p)); [| tauto].
      exfalso. assert (true = false); [| discriminate].
      apply Hfalse. repeat split; assumption.
    + split; [discriminate |].
      destruct (proj1 Hfalse eq_refl) as (Ha & Hb & Hc & Hd & He & Hf & Hg & Hi).
      intros [H | [H | [H | [H | [H | [H | [H | [H | H]]]]]]]];
        congruence.
Qed.

(** X12: the warning is printed exactly when the override hook returns
    [false] itself; any other result, falsy or not, prints nothing. *)
Theorem warning_only_on_false p n :
  (run_shouldNodeComponentUpdate editor p n = Js.boolean false ->
   snd (shouldComponentUpdate editor p n) = [veto_warning])
  /\ (run_shouldNodeComponentUpdate editor p n <> Js.boolean false ->
      snd (shouldComponentUpdate editor p n) = []).
Proof.
  unfold shouldComponentUpdate. split.
  - intros ->. reflexivity.
  - intros Hne.
    destruct (run_shouldNodeComponentUpdate editor p n) as [| | [|] | z | s];
      simpl; try reflexivity.
    + contradiction.
    + destruct (negb (z =? 0)%Z); reflexivity.
    + destruct s; reflexivity.
Qed.

(** X13: when the override hook gives no truthy answer in either
    direction, the decision does not depend on which props are the old
    ones and which the new ones. *)
Theorem update_decision_symmetric p n :
  Js.truthy (run_shouldNodeComponentUpdate editor p n) = false ->
  Js.truthy (run_shouldNodeComponentUpdate editor n p) = false ->
  fst (shouldComponentUpdate editor p n) = fst (shouldComponentUpdate editor n p).
Proof.
  intros H1 H2.
  rewrite (shouldComponentUpdate_decision editor p n H1).
  rewrite (shouldComponentUpdate_decision editor n p H2).
  apply builtinChecks_sym.
Qed.

End UpdateGateMore.

Lemma update_decision_witness :
  fst (shouldComponentUpdate Fixture.silent Fixture.idle Fixture.annotated) = true.
Proof.
  apply (proj2 (update_decision Fixture.silent Fixture.idle Fixture.annotated)).
  right. left. discriminate.
Defined.

Lemma warning_only_on_false_witness :
  snd (shouldComponentUpdate Fixture.vetoing Fixture.idle Fixture.idle)
  = [veto_warning]
  /\ snd (shouldComponentUpdate Fixture.silent Fixture.idle Fixture.pasted) = [].
Proof.
  split.
  - apply (proj1 (warning_only_on_false Fixture.vetoing Fixture.idle Fixture.idle)).
    reflexivity.
  - apply (proj2 (warning_only_on_false Fixture.silent Fixture.idle Fixture.pasted)).
    discriminate.
Defined.

Lemma update_decision_symmetric_witness :
  fst (shouldComponentUpdate Fixture.vetoing Fixture.idle Fixture.pasted)
  = fst (shouldComponentUpdate Fixture.vetoing Fixture.pasted Fixture.idle).
Proof.
  apply (update_decision_symmetric Fixture.vetoing Fixture.idle Fixture.pasted);
    reflexivity.
Defined.

(** ** More on rendering *)

Lemma mapM_returns {A B} (f : A -> Js.result B) xs :
  Forall (fun x => exists y, f x = Js.Ok y) xs ->
  exists ys, Js.mapM f xs = Js.Ok ys.
Proof.
  induction 1 as [| x xs [y Hy] _ [ys Hys]]; simpl; [eauto |].
  rewrite Hy, Hys. eauto.
Qed.

Lemma imapM_returns {A B} (f : nat -> A -> Js.result B) xs :
  forall j,
    (forall i x, xs !! i = Some x -> exists y, f (j + i) x = Js.Ok y) ->
    exists ys, Js.imapM f j xs = Js.Ok ys.
Proof.
  induction xs as [| x xs IH]; simpl; intros j H; [eauto |].
  destruct (H 0 x eq_refl) as [y Hy]. rewrite Nat.add_0_r in Hy. rewrite Hy.
  destruct (IH (S j)) as [ys Hys].
  - intros i x' Hx'. destruct (H (S i) x' Hx') as [y' Hy'].
    exists y'. rewrite <- Hy'. f_equal. lia.
  - rewrite Hys. eauto.
Qed.

Lemma map_mapM_returns {A B} (f : A -> Js.result B) (m : gmap string A) :
  (forall k a, m !! k = Some a -> exists b, f a = Js.Ok b) ->
  exists m', Js.map_mapM f m = Js.Ok m'.
Proof.
  induction m as [| j a m Hj Hfirst IH] using map_first_key_ind; intros H.
  - unfold Js.map_mapM. rewrite map_fold_empty. eauto.
  - rewrite (map_mapM_insert f m j a Hj Hfirst).
    destruct IH as [m' ->].
    + intros k a' Ha'. apply (H k a'). rewrite lookup_insert_ne; [exact Ha' |].
      intros ->. congruence.
    + destruct (H j a (lookup_insert_eq m j a)) as [b ->]. eauto.
Qed.

Lemma imapM_nodes {A B} (f : nat -> A -> Js.result B) (g : B -> A) xs :
  (forall i x y, f i x = Js.Ok y -> g y = x) ->
  forall j ys, Js.imapM f j xs = Js.Ok ys -> map g ys = xs.
Proof.
  intros Hg. induction xs as [| x xs IH]; simpl; intros j ys H.
  - injection H as <-. reflexivity.
  - destruct (f j x) as [y |] eqn:Hy; [| discriminate].
    destruct (Js.imapM f (S j) xs) as [ys' |] eqn:Hys; [| discriminate].
    injection H as <-. simpl. rewrite (Hg j x y Hy), (IH (S j) ys' Hys).
    reflexivity.
Qed.

Section RenderMore.

Context {Element : Type} (editor : Editor Element).
Context (Void : Props.t -> Element -> Element).
Context (getDecorations : Node -> list Range).
Context (getTextDirection : Node -> TextDirection).

(** The fields of a child element that do not depend on the overlays. *)
Lemma childElement_frame props newDecorations i child el :
  childElement props newDecorations i child = Js.Ok el ->
  Child.node el = child
  /\ Child.key el = key_of child
  /\ Child.parent el = Props.node props
  /\ Child.readOnly el = Props.readOnly props
  /\ Child.component el
     = match object_of child with text => TextComponent | _ => NodeComponent end
  /\ Child.block el
     = match object_of (Props.node props) with
       | block => Some (Props.node props)
       | _ => Props.block props
       end
  /\ match Props.selection props with
     | None => Child.selection el = None
     | Some sel => getRelativeRange (Props.node props) i sel
                   = Js.Ok (Child.selection el)
     end.
Proof.
  unfold childElement. intros H.
  destruct (Props.selection props) as [selection |].
  - destruct (getRelativeRange (Props.node props) i selection) as [sel |];
      [| discriminate].
    simpl in H.
    destruct (Js.mapM _ newDecorations); [| discriminate]. simpl in H.
    destruct (Js.map_mapM _ (Props.annotations props)); [| discriminate].
    simpl in H. injection H as <-. repeat split.
  - simpl in H.
    destruct (Js.mapM _ newDecorations); [| discriminate]. simpl in H.
    destruct (Js.map_mapM _ (Props.annotations props)); [| discriminate].
    simpl in H. injection H as <-. repeat split.
Qed.

(** The callback of line 138 returns as soon as no projection onto the
    child can raise. *)
Lemma childElement_returns props newDecorations i child :
  (forall r, exists r', getRelativeRange (Props.node props) i r = Js.Ok r') ->
  exists el, childElement props newDecorations i child = Js.Ok el.
Proof.
  intros Htotal. unfold childElement.
  assert (Hsel : exists sel,
             match Props.selection props with
             | Some selection => getRelativeRange (Props.node props) i selection
             | None => Js.Ok None
             end = Js.Ok sel).
  { destruct (Props.selection props); [apply Htotal | eauto]. }
  destruct Hsel as [sel ->]. simpl.
  destruct (mapM_returns (fun d => getRelativeRange (Props.node props) i d)
              newDecorations) as [projected ->].
  { apply Forall_forall. intros d _. apply Htotal. }
  simpl.
  destruct (map_mapM_returns (fun a => getRelativeRange (Props.node props) i a)
              (Props.annotations props)) as [projected' ->].
  { intros k a _. apply Htotal. }
  simpl. eauto.
Qed.

(** X14: a node all of whose children are texts or hold at least one text
    leaf renders without raising, for every selection, decoration and
    annotation both of whose points carry a path. *)
Theorem render_returns props ns :
  nodes_of (Props.node props) = Js.Ok ns ->
  Forall (fun c => object_of c = text \/ texts forward c <> []) ns ->
  exists out,
    render editor Void getDecorations getTextDirection props = Js.Ok out.
Proof.
  intros Hns Hall. unfold render, renderChildren. rewrite Hns. simpl.
  destruct (imapM_returns
              (childElement props (getDecorations (Props.node props))) ns 0)
    as [children ->].
  - intros i c Hc. simpl. apply childElement_returns. intros r.
    apply (getRelativeRange_returns (Props.node props) ns i c r Hns Hc).
    rewrite Forall_forall in Hall. apply Hall.
    apply list_elem_of_lookup. eauto.
  - simpl. eauto.
Qed.

(** X15: the children handed to the render hook are the children of the
    node, one element each and in document order. *)
Theorem children_in_document_order props children :
  renderChildren getDecorations props = Js.Ok children ->
  nodes_of (Props.node props) = Js.Ok (map Child.node children).
Proof.
  unfold renderChildren. intros H.
  destruct (nodes_of (Props.node props)) as [ns |]; [| discriminate].
  simpl in H. f_equal. symmetry.
  apply (imapM_nodes (childElement props (getDecorations (Props.node props)))
           Child.node ns) with (j := 0); [| exact H].
  intros i x y Hy. apply (childElement_frame _ _ _ _ _ Hy).
Qed.

(** X16: the element of a child carries the key of the child, the node
    being rendered as its parent, the read-only flag of the props, the text
    component exactly for a text child, and as block the node itself when
    it is a block, else the block of the props. *)
Theorem child_frame props children i el :
  renderChildren getDecorations props = Js.Ok children ->
  children !! i = Some el ->
  Child.key el = key_of (Child.node el)
  /\ Child.parent el = Props.node props
  /\ Child.readOnly el = Props.readOnly props
  /\ (Child.component el = TextComponent <-> object_of (Child.node el) = text)
  /\ (object_of (Props.node props) = block ->
      Child.block el = Some (Props.node props))
  /\ (object_of (Props.node props) <> block ->
      Child.block el = Props.block props).
Proof.
  unfold renderChildren. intros H Hel.
  destruct (nodes_of (Props.node props)) as [ns |]; [| discriminate].
  simpl in H.
  destruct (imapM_lookup _ ns 0 children i el H Hel) as (child & _ & Hok).
  destruct (childElement_frame _ _ _ _ _ Hok)
    as (Hnode & Hkey & Hparent & Hro & Hcomp & Hblock & _).
  rewrite Hnode. split; [exact Hkey |]. split; [exact Hparent |].
  split; [exact Hro |]. split; [| split].
  - rewrite Hcomp. destruct (object_of child); split; congruence.
  - intros Hb. rewrite Hblock, Hb. reflexivity.
  - intros Hb. rewrite Hblock. destruct (object_of (Props.node props));
      congruence.
Qed.

(** X17: a child receives no selection when the node has none, and
    otherwise the projection of the selection of the node onto it, which is
    null for a child the selection does not reach. *)
Theorem child_selection props children i el :
  renderChildren getDecorations props = Js.Ok children ->
  children !! i = Some el ->
  (Props.selection props = None -> Child.selection el = None)
  /\ (forall sel, Props.selection props = Some sel ->
                  getRelativeRange (Props.node props) i sel
                  = Js.Ok (Child.selection el)).
Proof.
  unfold renderChildren. intros H Hel.
  destruct (nodes_of (Props.node props)) as [ns |]; [| discriminate].
  simpl in H.
  destruct (imapM_lookup _ ns 0 children i el H Hel) as (child & _ & Hok).
  simpl in Hok.
  destruct (childElement_frame _ _ _ _ _ Hok) as (_ & _ & _ & _ & _ & _ & Hsel).
  split.
  - intros Hnone. rewrite Hnone in Hsel. exact Hsel.
  - intros sel Hsome. rewrite Hsome in Hsel. exact Hsel.
Qed.

(** X18: every annotation a child receives comes from an annotation of the
    node under the same key, of which it is the projection and whose
    metadata it keeps; a child never receives a key the node did not have. *)
Theorem child_annotations_from_parent props children i el k r :
  renderChildren getDecorations props = Js.Ok children ->
  children !! i = Some el ->
  Child.annotations el !! k = Some r ->
  exists a,
    Props.annotations props !! k = Some a
    /\ getRelativeRange (Props.node props) i a = Js.Ok (Some r)
    /\ meta r = meta a.
Proof.
  unfold renderChildren. intros H Hel Hr.
  destruct (nodes_of (Props.node props)) as [ns |]; [| discriminate].
  simpl in H.
  destruct (imapM_lookup _ ns 0 children i el H Hel) as (child & _ & Hok).
  simpl in Hok.
  destruct (childElement_Ok _ _ _ _ _ Hok) as (_ & _ & Hanns & _ & _).
  rewrite Hanns, lookup_omap in Hr.
  destruct (Props.annotations props !! k) as [a |]; [| discriminate].
  simpl in Hr. unfold project in Hr.
  destruct (getRelativeRange (Props.node props) i a) as [[r' |] |] eqn:Ha;
    try discriminate.
  injection Hr as ->. exists a. split; [reflexivity |]. split; [exact Ha |].
  destruct (getRelativeRange_Some_inv _ _ _ _ Ha) as (? & ? & ? & _ & _ & _ & ->).
  reflexivity.
Qed.

(** X19: a node without children renders without raising: the hook of its
    category is run with no children, and neither the selection nor any
    decoration or annotation is projected. *)
Theorem render_childless props :
  nodes_of (Props.node props) = Js.Ok [] ->
  render editor Void getDecorations getTextDirection props
  = Js.Ok (let element :=
             run_render editor (renderHook (Props.node props))
               (hookArgs getTextDirection props []) in
           if isVoid editor (Props.node props) then Void props element
           else element)
  /\ renderHook (Props.node props) <> None.
Proof.
  intros Hns. split.
  - unfold render, renderChildren. rewrite Hns. reflexivity.
  - unfold renderHook. destruct (Props.node props); simpl in *; discriminate.
Qed.

End RenderMore.

Lemma render_returns_witness :
  exists out,
    render Fixture.silent Fixture.VoidWrapper Fixture.decorate Fixture.direction
           Fixture.annotated = Js.Ok out.
Proof.
  apply (render_returns Fixture.silent Fixture.VoidWrapper Fixture.decorate
           Fixture.direction Fixture.annotated [Fixture.hello; Fixture.world]).
  - reflexivity.
  - repeat constructor.
Defined.

Lemma children_in_document_order_witness :
  exists children,
    renderChildren Fixture.decorate Fixture.annotated = Js.Ok children
    /\ nodes_of Fixture.paragraph = Js.Ok (map Child.node children).
Proof.
  destruct (renderChildren Fixture.decorate Fixture.annotated) as [children |] eqn:Hc;
    [| vm_compute in Hc; discriminate].
  exists children. split; [reflexivity |].
  apply (children_in_document_order Fixture.decorate Fixture.annotated children Hc).
Defined.

Lemma child_frame_witness :
  exists el,
    Child.key el = key_of (Child.node el)
    /\ Child.parent el = Fixture.paragraph
    /\ Child.readOnly el = true
    /\ Child.block el = Some Fixture.paragraph.
Proof.
  destruct (renderChildren Fixture.decorate Fixture.annotated) as [children |] eqn:Hc;
    [| vm_compute in Hc; discriminate].
  destruct (children !! 1) as [el |] eqn:Hel;
    [| exfalso; vm_compute in Hc; injection Hc as <-; discriminate].
  exists el.
  destruct (child_frame Fixture.decorate Fixture.annotated children 1 el Hc Hel)
    as (Hkey & Hparent & Hro & _ & Hblock & _).
  split; [exact Hkey |]. split; [exact Hparent |]. split; [exact Hro |].
  apply Hblock. reflexivity.
Defined.

Lemma child_selection_witness :
  exists el0 el1,
    getRelativeRange Fixture.paragraph 0
      (mkRange (mkPoint [1] 1) (mkPoint [1] 1) (SelectionMeta false true []))
    = Js.Ok (Child.selection el0)
    /\ getRelativeRange Fixture.paragraph 1
         (mkRange (mkPoint [1] 1) (mkPoint [1] 1) (SelectionMeta false true []))
       = Js.Ok (Child.selection el1).
Proof.
  destruct (renderChildren Fixture.decorate Fixture.annotated) as [children |] eqn:Hc;
    [| vm_compute in Hc; discriminate].
  destruct (children !! 0) as [el0 |] eqn:Hel0;
    [| exfalso; vm_compute in Hc; injection Hc as <-; discriminate].
  destruct (children !! 1) as [el1 |] eqn:Hel1;
    [| exfalso; vm_compute in Hc; injection Hc as <-; discriminate].
  exists el0, el1. split.
  - apply (proj2 (child_selection Fixture.decorate Fixture.annotated children 0 el0
                    Hc Hel0)).
    reflexivity.
  - apply (proj2 (child_selection Fixture.decorate Fixture.annotated children 1 el1
                    Hc Hel1)).
    reflexivity.
Defined.

Lemma child_annotations_from_parent_witness :
  exists a,
    Props.annotations Fixture.annotated !! "c2" = Some a
    /\ getRelativeRange Fixture.paragraph 1 a
       = Js.Ok (Some (mkRange (mkPoint [] 0) (mkPoint [] 2)
                              (AnnotationMeta "c2" "comment" [])))
    /\ meta (mkRange (mkPoint [] 0) (mkPoint [] 2) (AnnotationMeta "c2" "comment" []))
       = meta a.
Proof.
  destruct (renderChildren Fixture.decorate Fixture.annotated) as [children |] eqn:Hc;
    [| vm_compute in Hc; discriminate].
  destruct (children !! 1) as [el |] eqn:Hel;
    [| exfalso; vm_compute in Hc; injection Hc as <-; discriminate].
  assert (Hr : Child.annotations el !! "c2"
               = Some (mkRange (mkPoint [] 0) (mkPoint [] 2)
                               (AnnotationMeta "c2" "comment" []))).
  { vm_compute in Hc. injection Hc as <-. simpl in Hel. injection Hel as <-.
    vm_compute. reflexivity. }
  apply (child_annotations_from_parent Fixture.decorate Fixture.annotated
           children 1 el "c2" _ Hc Hel Hr).
Defined.

Lemma render_childless_witness :
  render Fixture.silent Fixture.VoidWrapper Fixture.decorate Fixture.direction
    {| Props.annotations := ∅; Props.block := None;
       Props.decorations := [Fixture.boundary];
       Props.node := Block 13 "b" []; Props.parent := Some Fixture.hollow;
       Props.readOnly := false; Props.selection := Some Fixture.across;
       Props.isSelected := true; Props.isFocused := false |}
  = Js.Ok (Fixture.Rendered (Some renderBlock)
             (hookArgs Fixture.direction
                {| Props.annotations := ∅; Props.block := None;
                   Props.decorations := [Fixture.boundary];
                   Props.node := Block 13 "b" []; Props.parent := Some Fixture.hollow;
                   Props.readOnly := false; Props.selection := Some Fixture.across;
                   Props.isSelected := true; Props.isFocused := false |} [])).
Proof.
  apply (proj1 (render_childless Fixture.silent Fixture.VoidWrapper Fixture.decorate
                  Fixture.direction
                  {| Props.annotations := ∅; Props.block := None;
                     Props.decorations := [Fixture.boundary];
                     Props.node := Block 13 "b" []; Props.parent := Some Fixture.hollow;
                     Props.readOnly := false; Props.selection := Some Fixture.across;
                     Props.isSelected := true; Props.isFocused := false |}
                  eq_refl)).
Defined.

(** ** Ranges that do not reach a child *)

(** Outside the indices between the child of the start and the child of the
    end, the projection is null; no child is looked at. *)
Lemma getRelativeRange_outside node ns index range s e :
  nodes_of node = Js.Ok ns ->
  PathUtils.first (path (start range)) = Some s ->
  PathUtils.first (path (end_ range)) = Some e ->
  index < s \/ e < index ->
  getRelativeRange node index range = Js.Ok None.
Proof.
  intros Hns Hs He Hout. apply (getRelativeRange_null node ns index range Hns).
  destruct (decide (s = index)) as [-> | Hne].
  - right. apply relativeEnd_none; rewrite ?Hs, ?He; simpl;
      index_cases; reflexivity || lia.
  - left. apply relativeStart_none; rewrite ?Hs, ?He; simpl;
      index_cases; reflexivity || lia.
Qed.

(** X20: onto an index before the child of the start or after the child of
    the end, the projection is null and nothing is raised, even where the
    node has no child at that index or the child holds no text. *)
Theorem projection_outside_span node ns index range s e :
  nodes_of node = Js.Ok ns ->
  PathUtils.first (path (start range)) = Some s ->
  PathUtils.first (path (end_ range)) = Some e ->
  index < s \/ e < index ->
  getRelativeRange node index range = Js.Ok None.
Proof.
  intros Hns Hs He Hout.
  assert (Hend : s = index -> relativeEnd (ns !! index) index range = Js.Ok None).
  { intros ->. apply relativeEnd_none; rewrite ?Hs, ?He; simpl;
      index_cases; reflexivity || lia. }
  assert (Hstart : s <> index ->
                   relativeStart (ns !! index) index range = Js.Ok None).
  { intros Hne. apply relativeStart_none; rewrite ?Hs, ?He; simpl;
      index_cases; reflexivity || lia. }
  apply (getRelativeRange_null node ns index range Hns).
  destruct (decide (s = index)); [right; auto | left; auto].
Qed.

Lemma projection_outside_span_witness :
  getRelativeRange Fixture.hollow 1
    (Fixture.deco (mkPoint [0; 0] 0) (mkPoint [0; 0] 1)) = Js.Ok None
  /\ getRelativeRange Fixture.hollow 9
       (Fixture.deco (mkPoint [0; 0] 0) (mkPoint [0; 0] 1)) = Js.Ok None.
Proof.
  split.
  - refine (projection_outside_span Fixture.hollow _ 1
              (Fixture.deco (mkPoint [0; 0] 0) (mkPoint [0; 0] 1)) 0 0
              eq_refl eq_refl eq_refl _).
    right. lia.
  - refine (projection_outside_span Fixture.hollow _ 9
              (Fixture.deco (mkPoint [0; 0] 0) (mkPoint [0; 0] 1)) 0 0
              eq_refl eq_refl eq_refl _).
    right. lia.
Defined.

Section Unreached.

Context (getDecorations : Node -> list Range).

(** X21: when none of the fresh decorations of the node reaches child [i],
    the decorations of that child are exactly the inherited ones. *)
Theorem unreached_child_keeps_inherited props children i el :
  renderChildren getDecorations props = Js.Ok children ->
  children !! i = Some el ->
  Forall (fun d => exists s e,
              PathUtils.first (path (start d)) = Some s
              /\ PathUtils.first (path (end_ d)) = Some e
              /\ (i < s \/ e < i))
         (getDecorations (Props.node props)) ->
  Child.decorations el = Props.decorations props.
Proof.
  unfold renderChildren. intros H Hel Hall.
  destruct (nodes_of (Props.node props)) as [ns |] eqn:Hns; [| discriminate].
  simpl in H.
  destruct (imapM_lookup _ ns 0 children i el H Hel) as (child & _ & Hok).
  simpl in Hok.
  destruct (childElement_Ok _ _ _ _ _ Hok) as (_ & -> & _).
  assert (Hnone : omap (project (Props.node props) i)
                       (getDecorations (Props.node props)) = []).
  { clear H Hel Hok.
    induction Hall as [| d ds (s & e & Hs & He & Hout) _ IH]; [reflexivity |].
    change (omap (project (Props.node props) i) (d :: ds))
      with (match project (Props.node props) i d with
            | Some x => x :: omap (project (Props.node props) i) ds
            | None => omap (project (Props.node props) i) ds
            end).
    unfold project at 1.
    rewrite (getRelativeRange_outside _ ns i d s e Hns Hs He Hout). exact IH. }
  rewrite Hnone. reflexivity.
Qed.

End Unreached.

Lemma unreached_child_keeps_inherited_witness :
  exists el,
    Child.node el = Fixture.hello
    /\ Child.decorations el = [Fixture.deco (mkPoint [] 0) (mkPoint [] 1)].
Proof.
  pose (fresh := fun n : Node =>
          if Pos.eqb (addr_of n) 1
          then [Fixture.deco (mkPoint [1] 1) (mkPoint [1] 2)] else []).
  destruct (renderChildren fresh Fixture.annotated) as [children |] eqn:Hc;
    [| vm_compute in Hc; discriminate].
  destruct (children !! 0) as [el |] eqn:Hel;
    [| exfalso; vm_compute in Hc; injection Hc as <-; discriminate].
  exists el. split.
  - vm_compute in Hc. injection Hc as <-. simpl in Hel. injection Hel as <-.
    reflexivity.
  - apply (unreached_child_keeps_inherited fresh Fixture.annotated children 0 el
             Hc Hel).
    repeat constructor. exists 1, 1. repeat split. left. lia.
Defined.

(** ** The attribute bag *)

(** X22: the attributes always carry the key of the node, and a direction
    is only ever set to right-to-left, only on a block none of whose
    children is a block, and only when the text direction of the node is
    right-to-left. *)
Theorem attributes_direction (getTextDirection : Node -> TextDirection) node :
  data_key (renderAttributes getTextDirection node) = key_of node
  /\ (forall d,
         dir (renderAttributes getTextDirection node) = Some d ->
         d = rtl
         /\ getTextDirection node = rtl
         /\ object_of node = block
         /\ exists ns, nodes_of node = Js.Ok ns
                       /\ Forall (fun c => object_of c <> block) ns).
Proof.
  split; [reflexivity |]. unfold renderAttributes. simpl. intros d.
  destruct (isLeafBlock node) eqn:Hleaf; [| discriminate].
  destruct (getTextDirection node) eqn:Hdir; try discriminate.
  intros [= <-]. split; [reflexivity |]. split; [reflexivity |].
  destruct node as [a k t | a k ns | a k ns | a k ns]; simpl in Hleaf;
    try discriminate.
  split; [reflexivity |]. exists ns. split; [reflexivity |].
  apply Forall_forall. intros c Hc.
  rewrite forallb_forall in Hleaf. apply list_elem_of_In in Hc.
  specialize (Hleaf c Hc). apply negb_true_iff in Hleaf.
  apply bool_decide_eq_false in Hleaf. exact Hleaf.
Qed.

Lemma attributes_direction_witness :
  dir (renderAttributes (fun _ => rtl) Fixture.paragraph) = Some rtl
  /\ object_of Fixture.paragraph = block.
Proof.
  destruct (proj2 (attributes_direction (fun _ => rtl) Fixture.paragraph) rtl eq_refl)
    as (_ & _ & Hb & _).
  split; [reflexivity | exact Hb].
Defined.
